(** * Voice-command pipeline of the video player: a shallow embedding

    Source: [src/hooks/use-voice-commands.ts] (the hook behind
    [useVoiceCommands]) and the [VoiceButton] component that consumes it.

    - JavaScript values are modelled as the code has them: strings as
      [string] (the bytes of their UTF-8 encoding), numbers as binary64
      floats, an object used as a map as the list of its entries in
      property order, [undefined] as [None].
    - [try]/[catch] and the calls on external collaborators are threaded
      through a small state-and-exception monad, [Js.M].
    - The recognition-session controller is a transition system on a
      [World]: the React state, the refs, the pending timers and the trace
      of calls made on the platform. *)

From Stdlib Require Import String Ascii List Bool ZArith NArith Lia.
From Stdlib Require Import Floats.
Import ListNotations.

Set Warnings "-inexact-float".
#[local] Open Scope string_scope.
#[local] Open Scope list_scope.

(* ================================================================== *)
(** * Part I. Definitions *)
(* ================================================================== *)

(** ** Completions: normal return or a thrown exception, over a store *)

Module Js.

Inductive completion (A : Type) : Type :=
| Normal (a : A)
| Throw (e : string).
Arguments Normal {A} a.
Arguments Throw {A} e.

(** A computation over a store [S]: the store survives a throw, as the
    effects of a JavaScript block do. *)
Definition M (S A : Type) : Type := S -> completion A * S.

Definition ret {S A : Type} (a : A) : M S A := fun s => (Normal a, s).

Definition bind {S A B : Type} (m : M S A) (k : A -> M S B) : M S B :=
  fun s =>
    match m s with
    | (Normal a, s') => k a s'
    | (Throw e, s') => (Throw e, s')
    end.

Definition throw {S A : Type} (e : string) : M S A := fun s => (Throw e, s).

(** [try { body } catch (e) { handler e }] *)
Definition try_catch {S A : Type} (body : M S A) (handler : string -> M S A)
  : M S A :=
  fun s =>
    match body s with
    | (Normal a, s') => (Normal a, s')
    | (Throw e, s') => handler e s'
    end.

Definition get {S : Type} : M S S := fun s => (Normal s, s).
Definition modify {S : Type} (f : S -> S) : M S unit := fun s => (Normal tt, f s).

(** [await promise]: the value of a fulfilled promise, the reason of a
    rejected one thrown. *)
Definition await {S A : Type} (promise : completion A) : M S A :=
  fun s => (promise, s).

Definition exec {S A : Type} (m : M S A) (s : S) : S := snd (m s).
Definition result {S A : Type} (m : M S A) (s : S) : completion A := fst (m s).

Definition throws {A : Type} (c : completion A) : bool :=
  match c with Normal _ => false | Throw _ => true end.

End Js.

Declare Scope js_scope.
Delimit Scope js_scope with js.
Notation "x <- m ;; k" := (Js.bind m (fun x => k))
  (at level 61, m at next level, right associativity) : js_scope.
Notation "m ;; k" := (Js.bind m (fun _ => k))
  (at level 61, right associativity) : js_scope.
#[local] Open Scope js_scope.

(** ** Strings *)

(** [String.prototype.toLowerCase] and [String.prototype.trim] are the
    platform's: Unicode case mapping and white-space stripping.  They are
    taken as an interface; the two laws are the ones the resolver relies
    on (both map the empty string to itself). *)
Class StringPrototype : Type := {
  toLowerCase : string -> string;
  trim : string -> string;
  toLowerCase_empty : toLowerCase "" = "";
  trim_empty : trim "" = ""
}.

(** [s.includes(t)]: [t] occurs in [s] as a contiguous substring. *)
Fixpoint includes (s t : string) : bool :=
  String.prefix t s
  || match s with
     | EmptyString => false
     | String _ s' => includes s' t
     end.

(** [!text] on a string: only the empty string is falsy. *)
Definition string_falsy (s : string) : bool :=
  match s with EmptyString => true | String _ _ => false end.

(** [!x] on an optional string ([undefined], [null] and [""] are falsy). *)
Definition falsy (x : option string) : bool :=
  match x with None => true | Some s => string_falsy s end.

(** An instance for running the model: letters [A]-[Z] are lowered, and
    the ASCII white space (TAB, LF, VT, FF, CR, SPACE) is stripped.  On
    text whose cased letters and white space are all ASCII (the declared
    phrases are such) this is what the platform computes. *)
Module AsciiText.

Definition lower_char (c : ascii) : ascii :=
  let n := nat_of_ascii c in
  if (65 <=? n)%nat && (n <=? 90)%nat then ascii_of_nat (n + 32) else c.

Fixpoint lower (s : string) : string :=
  match s with
  | EmptyString => EmptyString
  | String c s' => String (lower_char c) (lower s')
  end.

Definition is_space (c : ascii) : bool :=
  let n := nat_of_ascii c in
  ((9 <=? n)%nat && (n <=? 13)%nat) || (n =? 32)%nat.

Fixpoint trim_start (s : string) : string :=
  match s with
  | EmptyString => EmptyString
  | String c s' => if is_space c then trim_start s' else s
  end.

(** Strips trailing white space: a suffix made of spaces only vanishes. *)
Fixpoint trim_end (s : string) : string :=
  match s with
  | EmptyString => EmptyString
  | String c s' =>
      match trim_end s' with
      | EmptyString => if is_space c then EmptyString else String c EmptyString
      | r => String c r
      end
  end.

Definition strip (s : string) : string := trim_end (trim_start s).

#[export] Instance ascii_text : StringPrototype := {|
  toLowerCase := lower;
  trim := strip;
  toLowerCase_empty := eq_refl;
  trim_empty := eq_refl
|}.

End AsciiText.

(** ** Numbers *)

Module Num.
#[local] Open Scope float_scope.

(** [ToBoolean] of a number: [+0], [-0] and [NaN] are falsy. *)
Definition falsy (x : float) : bool := (x =? 0) || is_nan x.

(** [a || b] on numbers. *)
Definition or (a b : float) : float := if falsy a then b else a.

Definition is_neg_zero (x : float) : bool := is_zero x && get_sign x.

(** [Math.min] and [Math.max]: [NaN] is contagious and [-0 < +0]. *)
Definition Math_min (a b : float) : float :=
  if is_nan a || is_nan b then nan
  else if a <? b then a
  else if b <? a then b
  else if is_neg_zero a then a else b.

Definition Math_max (a b : float) : float :=
  if is_nan a || is_nan b then nan
  else if a <? b then b
  else if b <? a then a
  else if is_neg_zero a then b else a.

End Num.

(** ** The player-control capability set *)

(** The calls the dispatcher can make on [videoControls]. *)
Inductive PlayerCall : Type :=
| play
| pause
| stop
| seek (deltaSeconds : Z)
| setVolume (v : float)
| setSpeed (rate : float)
| toggleFullscreen
| addBookmark
| toggleFavorite.

(** The readable part of [videoControls] (the value of [useVideoPlayer()]
    at a render): [uri], [player] (presence), [volume], [isFullscreen]. *)
Record VideoControls : Type := {
  uri : option string;
  player : bool;
  volume : float;
  isFullscreen : bool
}.

(** How a call on the player can fail: by throwing, or by returning a
    promise that rejects. *)
Inductive Failure : Type := throwsError | rejects.

(** The player together with what has been called on it.  [faulty] tells
    which calls fail, and how. *)
Record PlayerWorld : Type := {
  controls : VideoControls;
  calls : list PlayerCall;
  faulty : PlayerCall -> option Failure
}.

Module Player.
#[local] Open Scope float_scope.

(** Modelled from the spec: [use-video-player] is not among the sources.
    [setVolume] takes a value in [0..1] (clamped). *)
Definition clamp01 (v : float) : float :=
  if v <? 0 then 0 else if 1 <? v then 1 else v.

(** Modelled from the spec: [use-video-player] is not among the sources.
    The effect of a call on the readable fields: [setVolume(v)] stores the
    clamped volume, [toggleFullscreen()] flips the fullscreen flag; the
    other calls leave [uri], [player], [volume], [isFullscreen] alone. *)
Definition react (c : PlayerCall) (vc : VideoControls) : VideoControls :=
  match c with
  | setVolume v =>
      {| uri := uri vc; player := player vc;
         volume := clamp01 v; isFullscreen := isFullscreen vc |}
  | toggleFullscreen =>
      {| uri := uri vc; player := player vc;
         volume := volume vc; isFullscreen := negb (isFullscreen vc) |}
  | _ => vc
  end.

(** One call on the player: it is recorded; then it throws, or it returns
    a promise, rejected if the call fails that way, fulfilled once the
    player has reacted otherwise. *)
Definition call (c : PlayerCall) : Js.M PlayerWorld (Js.completion unit) :=
  fun w =>
    let called := calls w ++ [c] in
    match faulty w c with
    | Some throwsError =>
        (Js.Throw "player error",
         {| controls := controls w; calls := called; faulty := faulty w |})
    | Some rejects =>
        (Js.Normal (Js.Throw "player error"),
         {| controls := controls w; calls := called; faulty := faulty w |})
    | None =>
        (Js.Normal (Js.Normal tt),
         {| controls := react c (controls w); calls := called;
            faulty := faulty w |})
    end.

End Player.

(** ** Objects used as maps *)

Module JsObject.

(** A [Record<string, V>] as the list of its own entries, in the order
    [Object.entries] yields them: the keys that are array indices first, in
    ascending numeric order, then the other keys in insertion order. *)
Definition t (V : Type) : Type := list (string * V).

Definition is_digit (c : ascii) : bool :=
  let n := nat_of_ascii c in (48 <=? n)%nat && (n <=? 57)%nat.

Fixpoint digits_value (s : string) (acc : N) : option N :=
  match s with
  | EmptyString => Some acc
  | String c s' =>
      if is_digit c
      then digits_value s' (10 * acc + N.of_nat (nat_of_ascii c - 48))%N
      else None
  end.

(** The array index a key denotes, if any: a canonical decimal numeral (no
    leading zero) below [2^32 - 1]. *)
Definition array_index (key : string) : option N :=
  match key with
  | EmptyString => None
  | String c rest =>
      if Ascii.eqb c "0" && negb (string_falsy rest) then None
      else match digits_value key 0 with
           | Some n => if (n <? 4294967295)%N then Some n else None
           | None => None
           end
  end.

Definition has {V : Type} (key : string) (o : t V) : bool :=
  existsb (fun e => String.eqb (fst e) key) o.

Fixpoint replace {V : Type} (key : string) (v : V) (o : t V) : t V :=
  match o with
  | [] => []
  | (k, w) :: o' =>
      if String.eqb k key then (k, v) :: o' else (k, w) :: replace key v o'
  end.

(** Places a new array-index key among the index keys, in numeric order. *)
Fixpoint insert_index {V : Type} (n : N) (key : string) (v : V) (o : t V)
  : t V :=
  match o with
  | [] => [(key, v)]
  | (k, w) :: o' =>
      match array_index k with
      | Some m =>
          if (m <? n)%N then (k, w) :: insert_index n key v o'
          else (key, v) :: o
      | None => (key, v) :: o
      end
  end.

(** [{ ...o, [key]: v }]: an existing key keeps its place and takes the
    new value; a new key goes where property order puts it. *)
Definition set {V : Type} (key : string) (v : V) (o : t V) : t V :=
  if has key o then replace key v o
  else match array_index key with
       | Some n => insert_index n key v o
       | None => o ++ [(key, v)]
       end.

Definition entries {V : Type} (o : t V) : list (string * V) := o.

End JsObject.

(** ** The hook's closure environment *)

Inductive PlatformOS : Type := web | ios | android.

(** What every callback of the hook has in scope: the active locale and
    the translation function of [useI18n()], [Platform.OS], and whether
    [window.SpeechRecognition || window.webkitSpeechRecognition] exists. *)
Record Hook : Type := {
  language : string;
  t : string -> string;
  OS : PlatformOS;
  SpeechRecognition : bool
}.

Definition is_web (h : Hook) : bool :=
  match OS h with web => true | _ => false end.

(** ** Command dispatcher: [executeCommand] *)

Module Dispatcher.
#[local] Open Scope float_scope.

(** An arm of the [switch]: [await videoControls.f(...)] or, for the two
    fullscreen commands, the bare call [videoControls.toggleFullscreen()]. *)
Inductive Arm : Type :=
| awaited (c : PlayerCall)
| unawaited (c : PlayerCall).

Definition call_of (arm : Arm) : PlayerCall :=
  match arm with awaited c | unawaited c => c end.

Definition is_awaited (arm : Arm) : bool :=
  match arm with awaited _ => true | unawaited _ => false end.

(** The arms of [switch (commandId)], in source order.  Every arm makes one
    call on [videoControls] and breaks. *)
Definition arms (videoControls : VideoControls) : list (string * Arm) :=
  [ ("play", awaited play);
    ("pause", awaited pause);
    ("stop", awaited stop);
    ("forward10", awaited (seek 10));
    ("forward20", awaited (seek 20));
    ("forward30", awaited (seek 30));
    ("backward10", awaited (seek (-10)));
    ("backward20", awaited (seek (-20)));
    ("backward30", awaited (seek (-30)));
    ("volumeUp",
      awaited (setVolume (Num.Math_min 1 (volume videoControls + 0.1))));
    ("volumeDown",
      awaited (setVolume (Num.Math_max 0 (volume videoControls - 0.1))));
    ("volumeMax", awaited (setVolume 1));
    ("mute", awaited (setVolume 0));
    ("unmute",
      let currentVolume := Num.or (volume videoControls) 0 in
      awaited (setVolume (if 0 <? currentVolume then currentVolume else 1)));
    ("speed05", awaited (setSpeed 0.5));
    ("speed1", awaited (setSpeed 1));
    ("speed10", awaited (setSpeed 1));
    ("speed125", awaited (setSpeed 1.25));
    ("speed15", awaited (setSpeed 1.5));
    ("speed2", awaited (setSpeed 2));
    ("fullscreen", unawaited toggleFullscreen);
    ("exitFullscreen", unawaited toggleFullscreen);
    ("bookmark", awaited addBookmark);
    ("favorite", awaited toggleFavorite) ].

(** [switch]: the first arm whose label is strictly equal to the
    scrutinee; [None] stands for the [default] arm. *)
Fixpoint switch {A : Type} (scrutinee : string) (cases : list (string * A))
  : option A :=
  match cases with
  | [] => None
  | (label, a) :: rest =>
      if String.eqb scrutinee label then Some a else switch scrutinee rest
  end.

(** The enumerated commands. *)
Definition enumerated (commandId : string) : bool :=
  existsb (String.eqb commandId)
          (map fst (arms {| uri := None; player := false; volume := 0;
                            isFullscreen := false |})).

Definition executeCommand (commandId : string) (videoControls : VideoControls)
  : Js.M PlayerWorld bool :=
  Js.try_catch
    (if falsy (uri videoControls) then Js.ret false
     else if negb (player videoControls) then Js.ret false
     else match switch commandId (arms videoControls) with
          | Some (awaited c) =>
              promise <- Player.call c ;; Js.await promise ;; Js.ret true
          | Some (unawaited c) => Player.call c ;; Js.ret true
          | None => Js.ret false
          end)
    (fun _error => Js.ret false).

(** A dispatch from the component: [videoControls] is the player's
    current value. *)
Definition dispatch (commandId : string) : Js.M PlayerWorld bool :=
  w <- Js.get ;; executeCommand commandId (controls w).

End Dispatcher.

(** ** Command resolver: [processVoiceCommand] and [saveCustomCommand] *)

Module Resolver.
Import Dispatcher.

(** The built-in phrase table, in declared order. *)
Definition commands : JsObject.t (list string) :=
  [ (* Play control *)
    ("play", ["play"; "播放"; "再生"; "reproducir"; "jouer"; "spielen"; "воспроизвести"; "تشغيل"; "재생"; "start"]);
    ("pause", ["pause"; "暫停"; "一時停止"; "pausar"; "pause"; "pausieren"; "пауза"; "إيقاف مؤقت"; "일시정지"]);
    ("stop", ["stop"; "停止"; "停止"; "parar"; "arrêter"; "stoppen"; "остановить"; "توقف"; "정지"]);
    (* Seek control *)
    ("forward10", ["forward 10"; "skip 10"; "forward ten"; "快轉10秒"; "10秒進む"; "adelantar 10"; "avancer 10"; "вперед 10"; "تقديم 10"; "10초 앞으로"]);
    ("forward20", ["forward 20"; "skip 20"; "forward twenty"; "快轉20秒"; "20秒進む"; "adelantar 20"; "avancer 20"; "вперед 20"; "تقديم 20"; "20초 앞으로"]);
    ("forward30", ["forward 30"; "skip 30"; "forward thirty"; "快轉30秒"; "30秒進む"; "adelantar 30"; "avancer 30"; "вперед 30"; "تقديم 30"; "30초 앞으로"]);
    ("backward10", ["backward 10"; "back 10"; "rewind 10"; "倒轉10秒"; "10秒戻る"; "retroceder 10"; "reculer 10"; "назад 10"; "تراجع 10"; "10초 뒤로"]);
    ("backward20", ["backward 20"; "back 20"; "rewind 20"; "倒轉20秒"; "20秒戻る"; "retroceder 20"; "reculer 20"; "назад 20"; "تراجع 20"; "20초 뒤로"]);
    ("backward30", ["backward 30"; "back 30"; "rewind 30"; "倒轉30秒"; "30秒戻る"; "retroceder 30"; "reculer 30"; "назад 30"; "تراجع 30"; "30초 뒤로"]);
    (* Volume control *)
    ("volumeUp", ["volume up"; "louder"; "increase volume"; "音量調高"; "音量上げる"; "subir volumen"; "augmenter volume"; "громче"; "رفع الصوت"; "볼륨 올리기"]);
    ("volumeDown", ["volume down"; "quieter"; "decrease volume"; "音量調低"; "音量下げる"; "bajar volumen"; "baisser volume"; "тише"; "خفض الصوت"; "볼륨 내리기"]);
    ("volumeMax", ["max volume"; "volume max"; "maximum volume"; "音量最大"; "最大音量"; "volumen máximo"; "volume maximum"; "максимальная громкость"; "أقصى صوت"; "최대 볼륨"]);
    ("mute", ["mute"; "靜音"; "ミュート"; "silenciar"; "muet"; "stumm"; "без звука"; "كتم الصوت"; "음소거"]);
    ("unmute", ["unmute"; "解除靜音"; "ミュート解除"; "activar sonido"; "activer son"; "звук включить"; "إلغاء كتم الصوت"; "음소거 해제"]);
    (* Speed control *)
    ("speed05", ["0.5 speed"; "half speed"; "slow"; "0.5倍速"; "0.5倍速"; "0.5 velocidad"; "0.5 vitesse"; "0.5 скорость"; "سرعة 0.5"; "0.5배속"]);
    ("speed1", ["normal speed"; "1x speed"; "1 speed"; "regular speed"; "正常速度"; "通常速度"; "velocidad normal"; "vitesse normale"; "обычная скорость"; "السرعة العادية"; "정상 속도"]);
    ("speed125", ["1.25 speed"; "1.25x speed"; "1.25倍速"; "1.25倍速"; "1.25 velocidad"; "1.25 vitesse"; "1.25 скорость"; "سرعة 1.25"; "1.25배속"]);
    ("speed15", ["1.5 speed"; "1.5x speed"; "fast"; "1.5倍速"; "1.5倍速"; "1.5 velocidad"; "1.5 vitesse"; "1.5 скорость"; "سرعة 1.5"; "1.5배속"]);
    ("speed2", ["2 speed"; "2x speed"; "double speed"; "2倍速"; "2倍速"; "2 velocidad"; "2 vitesse"; "2 скорость"; "سرعة 2"; "2배속"]);
    (* Fullscreen *)
    ("fullscreen", ["fullscreen"; "full screen"; "enter fullscreen"; "全螢幕"; "フルスクリーン"; "pantalla completa"; "plein écran"; "полный экран"; "ملء الشاشة"; "전체화면"]);
    ("exitFullscreen", ["exit fullscreen"; "leave fullscreen"; "離開全螢幕"; "フルスクリーン終了"; "salir pantalla completa"; "quitter plein écran"; "выйти из полного экрана"; "الخروج من ملء الشاشة"; "전체화면 나가기"]);
    (* Additional features *)
    ("bookmark", ["bookmark"; "add bookmark"; "mark"; "書籤"; "ブックマーク"; "marcador"; "marque-page"; "закладка"; "إشارة مرجعية"; "북마크"]);
    ("favorite", ["favorite"; "add favorite"; "like"; "最愛"; "お気に入り"; "favorito"; "favori"; "избранное"; "مفضل"; "즐겨찾기"]) ].

(** [setCustomCommands({ ...customCommands, [commandId]: trigger })]; the
    copy written to [AsyncStorage] is the same object. *)
Definition saveCustomCommand (commandId trigger : string)
  (customCommands : JsObject.t string) : JsObject.t string :=
  JsObject.set commandId trigger customCommands.

Section WithStrings.
Context `{StringPrototype}.

(** [text.toLowerCase().trim()] *)
Definition normalize (text : string) : string := trim (toLowerCase text).

(** [command.includes(trigger.toLowerCase())] *)
Definition heard (command trigger : string) : bool :=
  includes command (toLowerCase trigger).

(** [Object.entries(customCommands).find(([_, trigger]) => ...)] *)
Definition customCommand (customCommands : JsObject.t string)
  (command : string) : option (string * string) :=
  find (fun entry => heard command (snd entry))
       (JsObject.entries customCommands).

(** The [for ... of Object.entries(commands)] loop, up to its [return]. *)
Definition builtinCommand (command : string) : option (string * list string) :=
  find (fun entry => existsb (heard command) (snd entry))
       (JsObject.entries commands).

(** [processVoiceCommand] is a closure of the hook; the hook's environment
    (the active [language] among it) is in scope and is not read. *)
Definition processVoiceCommand (h : Hook) (customCommands : JsObject.t string)
  (text : string) (videoControls : VideoControls) : Js.M PlayerWorld bool :=
  if string_falsy text then Js.ret false
  else
    let command := normalize text in
    match customCommand customCommands command with
    | Some (commandId, _) => executeCommand commandId videoControls
    | None =>
        match builtinCommand command with
        | Some (action, _) => executeCommand action videoControls
        | None => Js.ret false
        end
    end.

(** The [commandId] that [processVoiceCommand] hands to [executeCommand],
    if it reaches a dispatch at all. *)
Definition resolve (h : Hook) (customCommands : JsObject.t string)
  (text : string) : option string :=
  if string_falsy text then None
  else
    let command := normalize text in
    match customCommand customCommands command with
    | Some (commandId, _) => Some commandId
    | None =>
        match builtinCommand command with
        | Some (action, _) => Some action
        | None => None
        end
    end.

End WithStrings.
End Resolver.

(** ** Session controller *)

(** The observable session state, [RecordingState]. *)
Record RecordingState : Type := {
  isRecording : bool;
  isProcessing : bool;
  lastCommand : option string;
  error : option string;
  isListening : bool;
  isPersistentMode : bool
}.

(** [{ ...prev, field: value }], one function per field. *)
Definition with_isRecording (b : bool) (prev : RecordingState) :=
  {| isRecording := b; isProcessing := isProcessing prev;
     lastCommand := lastCommand prev; error := error prev;
     isListening := isListening prev;
     isPersistentMode := isPersistentMode prev |}.
Definition with_isProcessing (b : bool) (prev : RecordingState) :=
  {| isRecording := isRecording prev; isProcessing := b;
     lastCommand := lastCommand prev; error := error prev;
     isListening := isListening prev;
     isPersistentMode := isPersistentMode prev |}.
Definition with_lastCommand (c : option string) (prev : RecordingState) :=
  {| isRecording := isRecording prev; isProcessing := isProcessing prev;
     lastCommand := c; error := error prev;
     isListening := isListening prev;
     isPersistentMode := isPersistentMode prev |}.
Definition with_error (e : option string) (prev : RecordingState) :=
  {| isRecording := isRecording prev; isProcessing := isProcessing prev;
     lastCommand := lastCommand prev; error := e;
     isListening := isListening prev;
     isPersistentMode := isPersistentMode prev |}.
Definition with_isListening (b : bool) (prev : RecordingState) :=
  {| isRecording := isRecording prev; isProcessing := isProcessing prev;
     lastCommand := lastCommand prev; error := error prev;
     isListening := b;
     isPersistentMode := isPersistentMode prev |}.
Definition with_isPersistentMode (b : bool) (prev : RecordingState) :=
  {| isRecording := isRecording prev; isProcessing := isProcessing prev;
     lastCommand := lastCommand prev; error := error prev;
     isListening := isListening prev;
     isPersistentMode := b |}.

(** The two closures handed to [setTimeout] for an automatic restart: the
    one of [onend] (500 ms), which keeps the [prev] it was created under,
    and the one of [onerror] for ['network'] (3000 ms). *)
Inductive Timer : Type :=
| restartAfterEnd (prev : RecordingState)
| restartAfterNetworkError.

(** Calls made on the platform. *)
Inductive Effect : Type :=
| RecognitionStart (recognition : nat) (continuous : bool) (lang : string)
| RecognitionStop (recognition : nat)
| GetUserMedia
| RecorderStart (recorder : nat)
| RecorderStop (recorder : nat)
| TracksStop (recorder : nat)
| Transcribe (lang : string)
| HapticImpact
| HapticNotification (success : bool)
| SetTimeout (timer : nat) (ms : nat)
| ClearTimeout (timer : nat).

(** The hook instance: its state, its refs, the timers that are set and
    have neither fired nor been cleared, the next identity to hand out
    (identities start at 1, so every handle is truthy), and the calls made
    so far. *)
Record World : Type := {
  state : RecordingState;
  recognitionRef : option nat;
  mediaRecorderRef : option nat;
  audioChunksRef : list string;
  persistentRecognitionRef : option nat;
  restartTimeoutRef : option nat;
  timers : list (nat * Timer);
  fresh : nat;
  trace : list Effect
}.

(** What the platform answers during one call of the hook. *)
Inductive SttResponse : Type :=
| NetworkFailure
| HttpError (status : nat)
| NotJson
| Json (text : option string).

Record Outside : Type := {
  microphoneGranted : bool;   (* [getUserMedia] resolves *)
  recognizerStarts : bool;    (* [new SpeechRecognition()] and [start()] return *)
  recorderStops : bool;       (* [mediaRecorder.stop()] reaches [onstop] *)
  hapticsWork : bool;         (* the [Haptics] calls resolve *)
  stt : SttResponse           (* what the transcription endpoint answers *)
}.

(** Each callback of the hook is run to completion on the world: a
    [setState] is applied at once, and the [await]s of an [async] callback
    are not interleaved with other events. *)
Module Session.
Import Js.

Definition initialState : RecordingState :=
  {| isRecording := false; isProcessing := false; lastCommand := None;
     error := None; isListening := false; isPersistentMode := false |}.

Definition initialWorld : World :=
  {| state := initialState; recognitionRef := None; mediaRecorderRef := None;
     audioChunksRef := []; persistentRecognitionRef := None;
     restartTimeoutRef := None; timers := []; fresh := 1; trace := [] |}.

(** *** Field updates *)

Definition setState (f : RecordingState -> RecordingState) : M World unit :=
  modify (fun w =>
    {| state := f (state w); recognitionRef := recognitionRef w;
       mediaRecorderRef := mediaRecorderRef w;
       audioChunksRef := audioChunksRef w;
       persistentRecognitionRef := persistentRecognitionRef w;
       restartTimeoutRef := restartTimeoutRef w; timers := timers w;
       fresh := fresh w; trace := trace w |}).

Definition set_recognitionRef (r : option nat) : M World unit :=
  modify (fun w =>
    {| state := state w; recognitionRef := r;
       mediaRecorderRef := mediaRecorderRef w;
       audioChunksRef := audioChunksRef w;
       persistentRecognitionRef := persistentRecognitionRef w;
       restartTimeoutRef := restartTimeoutRef w; timers := timers w;
       fresh := fresh w; trace := trace w |}).

Definition set_mediaRecorderRef (r : option nat) : M World unit :=
  modify (fun w =>
    {| state := state w; recognitionRef := recognitionRef w;
       mediaRecorderRef := r;
       audioChunksRef := audioChunksRef w;
       persistentRecognitionRef := persistentRecognitionRef w;
       restartTimeoutRef := restartTimeoutRef w; timers := timers w;
       fresh := fresh w; trace := trace w |}).

Definition set_audioChunksRef (chunks : list string) : M World unit :=
  modify (fun w =>
    {| state := state w; recognitionRef := recognitionRef w;
       mediaRecorderRef := mediaRecorderRef w;
       audioChunksRef := chunks;
       persistentRecognitionRef := persistentRecognitionRef w;
       restartTimeoutRef := restartTimeoutRef w; timers := timers w;
       fresh := fresh w; trace := trace w |}).

Definition set_persistentRecognitionRef (r : option nat) : M World unit :=
  modify (fun w =>
    {| state := state w; recognitionRef := recognitionRef w;
       mediaRecorderRef := mediaRecorderRef w;
       audioChunksRef := audioChunksRef w;
       persistentRecognitionRef := r;
       restartTimeoutRef := restartTimeoutRef w; timers := timers w;
       fresh := fresh w; trace := trace w |}).

Definition set_restartTimeoutRef (r : option nat) : M World unit :=
  modify (fun w =>
    {| state := state w; recognitionRef := recognitionRef w;
       mediaRecorderRef := mediaRecorderRef w;
       audioChunksRef := audioChunksRef w;
       persistentRecognitionRef := persistentRecognitionRef w;
       restartTimeoutRef := r; timers := timers w;
       fresh := fresh w; trace := trace w |}).

(** *** The platform *)

(** A call on the platform, recorded in the trace. *)
Definition effect (e : Effect) : M World unit :=
  modify (fun w =>
    {| state := state w; recognitionRef := recognitionRef w;
       mediaRecorderRef := mediaRecorderRef w;
       audioChunksRef := audioChunksRef w;
       persistentRecognitionRef := persistentRecognitionRef w;
       restartTimeoutRef := restartTimeoutRef w; timers := timers w;
       fresh := fresh w; trace := trace w ++ [e] |}).

(** A new object or timer identity. *)
Definition allocate : M World nat :=
  fun w =>
    (Normal (fresh w),
     {| state := state w; recognitionRef := recognitionRef w;
        mediaRecorderRef := mediaRecorderRef w;
        audioChunksRef := audioChunksRef w;
        persistentRecognitionRef := persistentRecognitionRef w;
        restartTimeoutRef := restartTimeoutRef w; timers := timers w;
        fresh := S (fresh w); trace := trace w |}).

Definition set_timers (f : list (nat * Timer) -> list (nat * Timer))
  : M World unit :=
  modify (fun w =>
    {| state := state w; recognitionRef := recognitionRef w;
       mediaRecorderRef := mediaRecorderRef w;
       audioChunksRef := audioChunksRef w;
       persistentRecognitionRef := persistentRecognitionRef w;
       restartTimeoutRef := restartTimeoutRef w; timers := f (timers w);
       fresh := fresh w; trace := trace w |}).

Definition other_timer (id : nat) (entry : nat * Timer) : bool :=
  negb (Nat.eqb (fst entry) id).

(** [setTimeout(callback, ms)] *)
Definition setTimeout (callback : Timer) (ms : nat) : M World nat :=
  id <- allocate ;;
  set_timers (fun pending => pending ++ [(id, callback)]) ;;
  effect (SetTimeout id ms) ;;
  ret id.

(** [clearTimeout(id)]: the timer, if still pending, will not fire. *)
Definition clearTimeout (id : nat) : M World unit :=
  set_timers (filter (other_timer id)) ;;
  effect (ClearTimeout id).

(** [await navigator.mediaDevices.getUserMedia({ audio: true })] *)
Definition getUserMedia (o : Outside) : M World unit :=
  effect GetUserMedia ;;
  if microphoneGranted o then ret tt else throw "NotAllowedError".

(** [Haptics.impactAsync] / [Haptics.notificationAsync] *)
Definition haptic (o : Outside) (e : Effect) : M World unit :=
  effect e ;;
  if hapticsWork o then ret tt else throw "haptics unavailable".

(** *** The hook's callbacks *)

Section Controller.
Context `{StringPrototype}.
Variable h : Hook.

(** [language || 'en-US'] *)
Definition recognitionLang : string :=
  if string_falsy (language h) then "en-US" else language h.

(** [const recognition = new SpeechRecognition(); ...; recognition.start()] *)
Definition newRecognition (o : Outside) (continuous : bool) (lang : string)
  : M World nat :=
  recognition <- allocate ;;
  (if recognizerStarts o
   then effect (RecognitionStart recognition continuous lang)
   else throw "InvalidStateError") ;;
  ret recognition.

Definition startPersistentListening (o : Outside) : M World unit :=
  try_catch
    (if is_web h then
       if SpeechRecognition h then
         (* Stop any existing recognition first *)
         w <- get ;;
         match persistentRecognitionRef w with
         | Some existing =>
             effect (RecognitionStop existing) ;;
             set_persistentRecognitionRef None
         | None => ret tt
         end ;;
         (* Clear any existing restart timeout *)
         match restartTimeoutRef w with
         | Some id => clearTimeout id ;; set_restartTimeoutRef None
         | None => ret tt
         end ;;
         recognition <- newRecognition o true recognitionLang ;;
         set_persistentRecognitionRef (Some recognition)
       else
         setState (fun prev =>
           with_isPersistentMode false
             (with_error (Some "Speech Recognition not supported in this browser. Please use Chrome, Edge, or Safari.")
                prev))
     else
       setState (fun prev =>
         with_error None
           (with_isListening true (with_isPersistentMode true prev))))
    (fun _error =>
       setState (fun prev =>
         with_isListening false
           (with_isPersistentMode false
              (with_error (Some "Failed to start persistent listening mode")
                 prev)))).

(** [recognition.onstart] of the persistent session *)
Definition persistent_onstart : M World unit :=
  setState (fun prev =>
    with_error None (with_isPersistentMode true (with_isListening true prev))).

(** [recognition.onresult] of the persistent session.  [lastResult] is
    [event.results[event.results.length - 1]] as [(isFinal, transcript)];
    [None] is an event without it, on which the body throws. *)
Definition persistent_onresult (lastResult : option (bool * string))
  : M World unit :=
  try_catch
    (match lastResult with
     | None => throw "TypeError"
     | Some (isFinal, transcript) =>
         if isFinal then
           let text := trim (toLowerCase transcript) in
           setState (fun prev =>
             with_error None (with_lastCommand (Some text) prev))
         else ret tt
     end)
    (fun _error => ret tt).

(** [recognition.onerror] of the persistent session; [code] is
    [event.error]. *)
Definition persistent_onerror (code : string) : M World unit :=
  if String.eqb code "no-speech" then ret tt
  else if String.eqb code "audio-capture" then
    setState (fun prev =>
      with_isPersistentMode false
        (with_isListening false
           (with_error (Some "Microphone access denied or not available")
              prev)))
  else if String.eqb code "not-allowed" then
    setState (fun prev =>
      with_isPersistentMode false
        (with_isListening false
           (with_error
              (Some "Microphone permission denied. Please allow microphone access.")
              prev)))
  else if String.eqb code "network" then
    (* For recoverable errors (network, etc.), try to restart after a delay *)
    w <- get ;;
    match restartTimeoutRef w with
    | Some id => clearTimeout id
    | None => ret tt
    end ;;
    id <- setTimeout restartAfterNetworkError 3000 ;;
    set_restartTimeoutRef (Some id)
  else if String.eqb code "aborted" then ret tt
  else
    setState (fun prev =>
      with_isListening false
        (with_error (Some ("Speech recognition error: " ++ code)%string) prev)).

(** [recognition.onend] of the persistent session *)
Definition persistent_onend : M World unit :=
  w <- get ;;
  match restartTimeoutRef w with
  | Some id => clearTimeout id
  | None => ret tt
  end ;;
  let prev := state w in
  if isPersistentMode prev
     && match persistentRecognitionRef w with Some _ => true | None => false end
  then
    id <- setTimeout (restartAfterEnd prev) 500 ;;
    set_restartTimeoutRef (Some id)
  else ret tt.

(** The body of a restart closure. *)
Definition runTimer (o : Outside) (callback : Timer) : M World unit :=
  match callback with
  | restartAfterEnd prev =>
      if isPersistentMode prev then startPersistentListening o else ret tt
  | restartAfterNetworkError =>
      w <- get ;;
      if isPersistentMode (state w) then startPersistentListening o
      else ret tt
  end.

(** The event loop reaches the delay of timer [id]: its closure runs if
    the timer is still pending, and nothing happens otherwise. *)
Definition timerFires (o : Outside) (id : nat) : M World unit :=
  w <- get ;;
  match find (fun entry => Nat.eqb (fst entry) id) (timers w) with
  | Some (_, callback) =>
      set_timers (filter (other_timer id)) ;;
      runTimer o callback
  | None => ret tt
  end.

Definition stopPersistentListening : M World unit :=
  (* Clear any restart timeouts *)
  w <- get ;;
  match restartTimeoutRef w with
  | Some id => clearTimeout id ;; set_restartTimeoutRef None
  | None => ret tt
  end ;;
  (* Stop the recognition *)
  match persistentRecognitionRef w with
  | Some recognition =>
      try_catch
        (effect (RecognitionStop recognition) ;;
         set_persistentRecognitionRef None)
        (fun _error => ret tt)
  | None => ret tt
  end ;;
  (* Update state *)
  setState (fun prev =>
    with_error None (with_isPersistentMode false (with_isListening false prev))).

Definition togglePersistentMode (o : Outside) : M World unit :=
  w <- get ;;
  if isPersistentMode (state w) then stopPersistentListening
  else
    granted <-
      (if is_web h then
         try_catch
           (getUserMedia o ;; ret true)
           (fun _error =>
              setState
                (with_error
                   (Some "Microphone permission is required for voice commands")) ;;
              ret false)
       else ret true) ;;
    if granted then startPersistentListening o else ret tt.

(** The [MediaRecorder] path of [startRecording] (the same statements in
    the web fallback and in the mobile branch). *)
Definition startMediaRecorder (o : Outside) : M World unit :=
  getUserMedia o ;;
  mediaRecorder <- allocate ;;
  set_audioChunksRef [] ;;
  effect (RecorderStart mediaRecorder) ;;
  set_mediaRecorderRef (Some mediaRecorder).

Definition startRecording (o : Outside) : M World unit :=
  try_catch
    ((if is_web h then
        if negb (SpeechRecognition h) then startMediaRecorder o
        else
          recognition <- newRecognition o false (language h) ;;
          set_recognitionRef (Some recognition)
      else startMediaRecorder o) ;;
     setState (fun prev => with_error None (with_isRecording true prev)) ;;
     if negb (is_web h) then haptic o HapticImpact else ret tt)
    (fun _error => setState (with_error (Some (t h "voice.error")))).

(** [recognition.onresult] of a one-shot session *)
Definition oneshot_onresult (transcript : string) : M World unit :=
  let text := trim (toLowerCase transcript) in
  setState (fun prev =>
    with_error None (with_lastCommand (Some text) (with_isRecording false prev))).

(** [recognition.onerror] of a one-shot session *)
Definition oneshot_onerror (code : string) : M World unit :=
  setState (fun prev =>
    with_error (Some (t h "voice.error")) (with_isRecording false prev)).

(** [mediaRecorder.ondataavailable] *)
Definition recorder_ondataavailable (data : string) : M World unit :=
  w <- get ;; set_audioChunksRef (audioChunksRef w ++ [data]).

Definition stopRecording (o : Outside) : M World (option string) :=
  try_catch
    (setState (fun prev => with_isProcessing true (with_isRecording false prev)) ;;
     w <- get ;;
     match recognitionRef w with
     | Some recognition =>
         (* If using Web Speech Recognition, just stop it *)
         effect (RecognitionStop recognition) ;;
         set_recognitionRef None ;;
         setState (with_isProcessing false) ;;
         ret None
     | None =>
         audioBlob <-
           match mediaRecorderRef w with
           | Some mediaRecorder =>
               effect (RecorderStop mediaRecorder) ;;
               (if recorderStops o then ret tt else throw "InvalidStateError") ;;
               effect (TracksStop mediaRecorder) ;;
               chunks <- get ;;
               set_mediaRecorderRef None ;;
               ret (Some (audioChunksRef chunks))
           | None => ret None
           end ;;
         match audioBlob with
         | None =>
             setState (with_isProcessing false) ;;
             ret None
         | Some _blob =>
             (* Send to speech-to-text API *)
             effect (Transcribe (language h)) ;;
             text <-
               match stt o with
               | NetworkFailure => throw "Network request failed"
               | HttpError status => throw "Speech recognition failed"
               | NotJson =>
                   throw "Invalid response from speech recognition service"
               | Json text =>
                   ret (option_map (fun s => trim (toLowerCase s)) text)
               end ;;
             setState (fun prev =>
               with_error None
                 (with_lastCommand text (with_isProcessing false prev))) ;;
             (if negb (is_web h) then haptic o (HapticNotification true)
              else ret tt) ;;
             ret text
         end
     end)
    (fun _error =>
       setState (fun prev =>
         with_error (Some (t h "voice.error")) (with_isProcessing false prev)) ;;
       (if negb (is_web h) then haptic o (HapticNotification false)
        else ret tt) ;;
       ret None).

Definition toggleRecording (o : Outside) : M World (option string) :=
  w <- get ;;
  if isRecording (state w) then stopRecording o
  else startRecording o ;; ret None.

(** The effect that clears [lastCommand] three seconds after it is set. *)
Definition lastCommand_expires : M World unit :=
  setState (with_lastCommand None).

End Controller.
End Session.

(** ** The [VoiceButton] component *)

Module VoiceButton.
Import Js Session.

(** The record button: [onPress={toggleRecording}] with
    [disabled={isProcessing || isPersistentMode}]; a disabled button does
    not call its handler. *)
Definition recordButton_onPress `{StringPrototype} (h : Hook) (o : Outside)
  : M World (option string) :=
  w <- get ;;
  if isProcessing (state w) || isPersistentMode (state w) then ret None
  else toggleRecording h o.

(** The persistent-mode switch: [onPress={togglePersistentMode}]. *)
Definition persistentToggle_onPress (h : Hook) (o : Outside) : M World unit :=
  togglePersistentMode h o.

End VoiceButton.

(** ** Executions of the session controller *)

Module Execution.
Import Js Session.

(** What can happen to a hook instance: a call of one of the operations it
    exposes, a press on one of the buttons, an event of a recognizer or of
    the recorder, a timer reaching its delay. *)
Inductive Event : Type :=
| call_startPersistentListening (o : Outside)
| call_stopPersistentListening
| call_togglePersistentMode (o : Outside)
| call_startRecording (o : Outside)
| call_stopRecording (o : Outside)
| call_toggleRecording (o : Outside)
| press_recordButton (o : Outside)
| persistent_start
| persistent_result (lastResult : option (bool * string))
| persistent_error (code : string)
| persistent_end
| oneshot_result (transcript : string)
| oneshot_error (code : string)
| recorder_data (data : string)
| timer_fires (o : Outside) (id : nat)
| lastCommand_timeout.

Section Run.
Context `{StringPrototype}.
Variable h : Hook.

Definition handle (ev : Event) : M World unit :=
  match ev with
  | call_startPersistentListening o => startPersistentListening h o
  | call_stopPersistentListening => stopPersistentListening
  | call_togglePersistentMode o => togglePersistentMode h o
  | call_startRecording o => startRecording h o
  | call_stopRecording o => stopRecording h o ;; ret tt
  | call_toggleRecording o => toggleRecording h o ;; ret tt
  | press_recordButton o => VoiceButton.recordButton_onPress h o ;; ret tt
  | persistent_start => persistent_onstart
  | persistent_result lastResult => persistent_onresult lastResult
  | persistent_error code => persistent_onerror code
  | persistent_end => persistent_onend
  | oneshot_result transcript => oneshot_onresult transcript
  | oneshot_error code => oneshot_onerror h code
  | recorder_data data => recorder_ondataavailable data
  | timer_fires o id => timerFires h o id
  | lastCommand_timeout => lastCommand_expires
  end.

Definition step (ev : Event) (w : World) : World := exec (handle ev) w.

Definition run (evs : list Event) (w : World) : World :=
  fold_left (fun w ev => step ev w) evs w.

(** The worlds an execution can be in. *)
Inductive reachable : World -> Prop :=
| reachable_initial : reachable initialWorld
| reachable_step (w : World) (ev : Event) :
    reachable w -> reachable (step ev w).

End Run.

(** The calls that start a recognition session. *)
Definition starts_recognition (e : Effect) : bool :=
  match e with RecognitionStart _ _ _ => true | _ => false end.

End Execution.

(** ** The rest of the hook's effects *)

Module Lifecycle.
Import Js Session.


End Lifecycle.

(** ** [VoiceButton]: what it reports about a command *)

Module CommandFeedback.
Import Js.

(** The component's [commandResult] state. *)
Record CommandResult : Type := {
  success : bool;
  message : string
}.

Definition quote : string := String (ascii_of_nat 34) EmptyString.

(** [`Executed: "${lastCommand}"`] and [`Not recognized: "${lastCommand}"`] *)
Definition executed (lastCommand : string) : string :=
  ("Executed: " ++ quote ++ lastCommand ++ quote)%string.
Definition notRecognized (lastCommand : string) : string :=
  ("Not recognized: " ++ quote ++ lastCommand ++ quote)%string.

(** The effect on [lastCommand]: [if (lastCommand)] it awaits
    [processVoiceCommand(lastCommand, videoControls)] and sets
    [commandResult]; the value returned is what [commandResult] is set to,
    [None] when the effect does nothing.  (The timer that clears the
    result four seconds later is left out.) *)
Definition processCommand `{StringPrototype} (h : Hook)
  (customCommands : JsObject.t string) (lastCommand : option string)
  (videoControls : VideoControls) : M PlayerWorld (option CommandResult) :=
  match lastCommand with
  | None => ret None
  | Some command =>
      if string_falsy command then ret None
      else
        succeeded <-
          Resolver.processVoiceCommand h customCommands command videoControls ;;
        if succeeded
        then ret (Some {| success := true; message := executed command |})
        else ret (Some {| success := false; message := notRecognized command |})
  end.

End CommandFeedback.

(** ** [VideoControls]: the buttons beside the voice commands *)

Module VideoControlsPanel.
#[local] Open Scope float_scope.

(** [const speeds = [0.5, 1, 1.25, 1.5, 2]] *)
Definition speeds : list float := [0.5; 1; 1.25; 1.5; 2].

(** [Array.prototype.indexOf]: the first index holding a strictly equal
    value, [-1] when there is none. *)
Fixpoint indexOf_from (l : list float) (x : float) (i : Z) : Z :=
  match l with
  | [] => (-1)%Z
  | y :: l' => if y =? x then i else indexOf_from l' x (i + 1)%Z
  end.

Definition indexOf (l : list float) (x : float) : Z := indexOf_from l x 0.

(** The speed button: [setSpeed(speeds[nextIndex])]; [None] stands for
    [undefined], what an index outside the array reads. *)
Definition speedButton_onPress (speed : float) : option float :=
  let currentIndex := indexOf speeds speed in
  let nextIndex := Z.rem (currentIndex + 1) (Z.of_nat (length speeds)) in
  if (nextIndex <? 0)%Z then None else nth_error speeds (Z.to_nat nextIndex).

(** Presses in a row, each reading the speed the one before has set. *)
Fixpoint speedButton_presses (n : nat) (speed : float) : option float :=
  match n with
  | O => Some speed
  | S n' =>
      match speedButton_onPress speed with
      | Some next => speedButton_presses n' next
      | None => None
      end
  end.

(** The volume button: [setVolume(volume > 0 ? 0 : 1)] *)
Definition volumeButton_onPress (volume : float) : PlayerCall :=
  setVolume (if 0 <? volume then 0 else 1).

End VideoControlsPanel.

(** ** [AppleIntelligenceAnimation]: sizes and durations *)

Module EdgeAnimation.
#[local] Open Scope float_scope.

Definition iphone16ProWidth : float := 393.
Definition iphone16ProHeight : float := 852.

Definition getEdgeThickness (audioLevel screenWidth screenHeight : float)
  : float :=
  let baseThickness := Num.Math_max 6 (audioLevel * 24) in
  let screenScale :=
    Num.Math_min (screenWidth / iphone16ProWidth)
                 (screenHeight / iphone16ProHeight) in
  Num.Math_max 6 (baseThickness * screenScale).

(** The [duration] of both halves of the breathing loop. *)
Definition breathingDuration (audioLevel : float) : float :=
  Num.Math_max 600 (1200 - audioLevel * 600).

End EdgeAnimation.

(** ** Invariant of the restart timers *)


(** ** Sample inputs *)

Module Sample.
Import Session Execution.
#[local] Open Scope float_scope.

Definition english_web : Hook :=
  {| language := "en"; t := fun key => key; OS := web;
     SpeechRecognition := true |}.

Definition chinese_phone : Hook :=
  {| language := "zh-TW"; t := fun key => key; OS := ios;
     SpeechRecognition := false |}.

(** A platform on which every call succeeds. *)
Definition fine : Outside :=
  {| microphoneGranted := true; recognizerStarts := true;
     recorderStops := true; hapticsWork := true;
     stt := Json (Some "play") |}.

(** A platform that refuses the microphone. *)
Definition denied : Outside :=
  {| microphoneGranted := false; recognizerStarts := true;
     recorderStops := true; hapticsWork := true;
     stt := NetworkFailure |}.

(** A loaded video at half volume, windowed. *)
Definition half_volume : VideoControls :=
  {| uri := Some "movie.mp4"; player := true; volume := 0.5;
     isFullscreen := false |}.

(** The same video once its volume is 0. *)
Definition silent : VideoControls :=
  {| uri := Some "movie.mp4"; player := true; volume := 0;
     isFullscreen := false |}.

(** No video loaded. *)
Definition nothing_loaded : VideoControls :=
  {| uri := None; player := true; volume := 0.5; isFullscreen := false |}.

Definition playing (vc : VideoControls) : PlayerWorld :=
  {| controls := vc; calls := []; faulty := fun _ => None |}.

(** A player that throws on every call. *)
Definition broken (vc : VideoControls) : PlayerWorld :=
  {| controls := vc; calls := []; faulty := fun _ => Some throwsError |}.

(** A player whose calls return promises that reject. *)
Definition rejecting (vc : VideoControls) : PlayerWorld :=
  {| controls := vc; calls := []; faulty := fun _ => Some rejects |}.

(** Persistent mode is on and listening. *)
Definition listening : World :=
  run (H := AsciiText.ascii_text) english_web
      [call_togglePersistentMode fine; persistent_start] initialWorld.

(** The persistent session has just ended by itself: the 500 ms restart is
    pending. *)
Definition restart_pending : World :=
  step (H := AsciiText.ascii_text) english_web persistent_end listening.

(** A one-shot recording could not start: an error is shown, no session
    of either kind exists. *)
Definition failed_to_record : World :=
  step (H := AsciiText.ascii_text) chinese_phone (call_startRecording denied)
       initialWorld.

End Sample.

(** More sample worlds. *)
Module Scenario.
Import Session Execution.


(** The persistent recognizer has just heard a final result. *)
Definition heard_play : World :=
  step (H := AsciiText.ascii_text) Sample.english_web
       (persistent_result (Some (true, " Play "))) Sample.listening.

(** One override, for ['play']. *)
Definition one_override : JsObject.t string := [("play", "go")].

End Scenario.

(* ================================================================== *)
(** * Part II. Properties *)
(* ================================================================== *)

(** ** The monad *)

Section MonadLaws.
Context {S A B : Type}.

Lemma bind_ret (a : A) (k : A -> Js.M S B) (s : S) :
  Js.bind (Js.ret a) k s = k a s.
Proof. reflexivity. Qed.

Lemma bind_normal (m : Js.M S A) (k : A -> Js.M S B) (s s' : S) (a : A) :
  m s = (Js.Normal a, s') -> Js.bind m k s = k a s'.
Proof. intros E. unfold Js.bind. now rewrite E. Qed.

Lemma bind_throw (m : Js.M S A) (k : A -> Js.M S B) (s s' : S) (e : string) :
  m s = (Js.Throw e, s') -> Js.bind m k s = (Js.Throw e, s').
Proof. intros E. unfold Js.bind. now rewrite E. Qed.

(** A [try] whose handler returns never throws. *)
Lemma try_catch_total (body : Js.M S A) (a : A) (s : S) :
  Js.throws (Js.result (Js.try_catch body (fun _ => Js.ret a)) s) = false.
Proof.
  unfold Js.result, Js.try_catch.
  destruct (body s) as [[v | e] s']; reflexivity.
Qed.

End MonadLaws.

(** ** Strings and lists *)

Lemma prefix_app (p s : string) :
  String.prefix p s = true <-> exists rest, s = (p ++ rest)%string.
Proof.
  revert s. induction p as [| c p IH]; intros s; simpl.
  - split; [intros _; now exists s | intros _; now destruct s].
  - destruct s as [| d s]; simpl.
    + split; [discriminate | intros [rest E]; discriminate].
    + destruct (Ascii.ascii_dec c d) as [-> | ne].
      * rewrite IH. split; intros [rest E]; exists rest; congruence.
      * split; [discriminate | intros [rest E]; congruence].
Qed.

(** [includes] is substring containment. *)
Lemma includes_spec (s sub : string) :
  includes s sub = true
  <-> exists before after, s = (before ++ sub ++ after)%string.
Proof.
  induction s as [| c s IH]; cbn [includes].
  - rewrite orb_false_r, prefix_app. split.
    + intros [rest E]. now exists ""%string, rest.
    + intros [before [after E]].
      destruct before; simpl in E; [now exists after | discriminate].
  - rewrite orb_true_iff, IH, prefix_app. split.
    + intros [[rest E] | [before [after E]]].
      * now exists ""%string, rest.
      * exists (String c before), after. simpl. now rewrite E.
    + intros [before [after E]]. destruct before as [| d before]; simpl in E.
      * left. now exists after.
      * right. exists before, after. congruence.
Qed.

Lemma includes_empty_sub (s : string) : includes s "" = true.
Proof. destruct s; reflexivity. Qed.

Lemma includes_in_empty (sub : string) :
  includes "" sub = true -> sub = ""%string.
Proof. destruct sub; simpl; [reflexivity | discriminate]. Qed.

Lemma string_falsy_iff (s : string) : string_falsy s = true <-> s = ""%string.
Proof. destruct s; simpl; split; congruence. Qed.

(** [find] returns the first element that passes the test. *)
Lemma find_first {A : Type} (f : A -> bool) (l : list A) :
  (exists x, In x l /\ f x = true) ->
  exists before x after,
    l = before ++ x :: after
    /\ (forall y, In y before -> f y = false)
    /\ f x = true
    /\ find f l = Some x.
Proof.
  induction l as [| a l IH]; intros [x [Hin Hx]]; [contradiction |].
  simpl. destruct (f a) eqn:Fa.
  - exists [], a, l. repeat split; auto. intros y [].
  - destruct Hin as [-> | Hin]; [congruence |].
    destruct IH as [before [y [after [E [Hb [Hy Hf]]]]]]; [now exists x |].
    exists (a :: before), y, after. repeat split; auto.
    + simpl. now rewrite E.
    + intros z [<- | Hz]; auto.
Qed.

Lemma find_split {A : Type} (f : A -> bool) (before after : list A) (x : A) :
  (forall y, In y before -> f y = false) -> f x = true ->
  find f (before ++ x :: after) = Some x.
Proof.
  intros Hb Hx. induction before as [| a before IH]; simpl.
  - now rewrite Hx.
  - rewrite (Hb a) by now left. apply IH. intros y Hy. apply Hb. now right.
Qed.

Lemma find_none {A : Type} (f : A -> bool) (l : list A) :
  find f l = None <-> forall x, In x l -> f x = false.
Proof.
  induction l as [| a l IH]; simpl.
  - split; [intros _ x [] | reflexivity].
  - destruct (f a) eqn:Fa.
    + split; [discriminate | intros Hn; specialize (Hn a (or_introl eq_refl)); congruence].
    + rewrite IH. split.
      * intros Hn x [<- | Hx]; auto.
      * intros Hn x Hx. apply Hn. now right.
Qed.

(** ** Numbers *)

Section NumberFacts.
#[local] Open Scope float_scope.

(** A number above zero is truthy. *)
Lemma positive_truthy (v : float) : (0 <? v) = true -> Num.falsy v = false.
Proof.
  unfold Num.falsy, is_nan. rewrite ltb_spec, !eqb_spec.
  change (Prim2SF 0) with (S754_zero false).
  destruct (Prim2SF v) as [s | s | | s m e]; simpl; try discriminate.
  - destruct s; simpl; [discriminate | reflexivity].
  - destruct s; simpl; [discriminate |]. intros _.
    unfold SFeqb. simpl. now rewrite Z.compare_refl, Pos.compare_cont_refl.
Qed.

(** The argument of the ['unmute'] arm: the current volume when it is
    above zero, 1 otherwise. *)
Lemma unmute_argument (v : float) :
  (let currentVolume := Num.or v 0 in
   if 0 <? currentVolume then currentVolume else 1)
  = (if 0 <? v then v else 1).
Proof.
  cbv zeta. unfold Num.or. destruct (Num.falsy v) eqn:F; [| reflexivity].
  destruct (0 <? v) eqn:P; [| reflexivity].
  apply positive_truthy in P. congruence.
Qed.

End NumberFacts.

(** ** Dispatcher *)

Section DispatcherFacts.
Import Dispatcher.

Lemma switch_default {A : Type} (s : string) (cases : list (string * A)) :
  switch s cases = None <-> existsb (String.eqb s) (map fst cases) = false.
Proof.
  induction cases as [| [label a] cases IH]; simpl; [tauto |].
  destruct (String.eqb s label); simpl; [split; discriminate | exact IH].
Qed.

(** The labels of the [switch] do not depend on the controls. *)
Lemma arms_labels (vc vc' : VideoControls) :
  map fst (arms vc) = map fst (arms vc').
Proof. reflexivity. Qed.

Lemma switch_enumerated (commandId : string) (vc : VideoControls) :
  switch commandId (arms vc) = None <-> enumerated commandId = false.
Proof. rewrite switch_default. unfold enumerated. reflexivity. Qed.

(** [executeCommand], run: refusals leave the player alone; an enumerated
    command makes its call; a call that throws, or an awaited call whose
    promise rejects, is answered by [false]. *)
Lemma executeCommand_run (commandId : string) (vc : VideoControls)
  (w : PlayerWorld) :
  executeCommand commandId vc w =
  if falsy (uri vc) then (Js.Normal false, w)
  else if negb (player vc) then (Js.Normal false, w)
  else match switch commandId (arms vc) with
       | None => (Js.Normal false, w)
       | Some arm =>
           let c := call_of arm in
           let called := {| controls := controls w; calls := calls w ++ [c];
                            faulty := faulty w |} in
           match faulty w c with
           | Some throwsError => (Js.Normal false, called)
           | Some rejects => (Js.Normal (negb (is_awaited arm)), called)
           | None =>
               (Js.Normal true,
                {| controls := Player.react c (controls w);
                   calls := calls w ++ [c]; faulty := faulty w |})
           end
       end.
Proof.
  unfold executeCommand, Js.try_catch.
  destruct (falsy (uri vc)); [reflexivity |].
  destruct (negb (player vc)); [reflexivity |].
  destruct (switch commandId (arms vc)) as [[c | c] |]; [| | reflexivity];
    unfold Js.bind, Player.call; cbn;
    destruct (faulty w c) as [[|] |]; reflexivity.
Qed.

Lemma dispatch_run (commandId : string) (w : PlayerWorld) :
  dispatch commandId w = executeCommand commandId (controls w) w.
Proof. reflexivity. Qed.


(** On a player that throws, and on one whose promises reject, ['play']
    is answered by [false] after its one call. *)
Example play_on_a_failing_player :
  executeCommand "play" Sample.half_volume (Sample.broken Sample.half_volume)
  = (Js.Normal false,
     {| controls := Sample.half_volume; calls := [play];
        faulty := fun _ => Some throwsError |})
  /\ executeCommand "play" Sample.half_volume
       (Sample.rejecting Sample.half_volume)
     = (Js.Normal false,
        {| controls := Sample.half_volume; calls := [play];
           faulty := fun _ => Some rejects |}).
Proof. split; reflexivity. Qed.

(** [toggleFullscreen()] is not awaited: were it to return a promise that
    rejects, the [try] would not see it, and the command returns [true]. *)
Example fullscreen_is_not_awaited :
  executeCommand "fullscreen" Sample.half_volume
    (Sample.rejecting Sample.half_volume)
  = (Js.Normal true,
     {| controls := Sample.half_volume; calls := [toggleFullscreen];
        faulty := fun _ => Some rejects |}).
Proof. reflexivity. Qed.

(** The call of the ['unmute'] arm, whatever snapshot of the controls the
    caller passes. *)
Lemma unmute_call (vc : VideoControls) :
  switch "unmute" (arms vc)
  = Some (awaited (setVolume (if (0 <? volume vc)%float
                              then volume vc else 1%float))).
Proof. simpl. now rewrite unmute_argument. Qed.

(** C1 (amended).  With media loaded and a working player: ['mute']
    makes the one call [setVolume(0)]; ['unmute'] makes the one call
    [setVolume(v)] where [v] is the volume the controls read when it is
    dispatched if that is above 0, and 1 otherwise.  So once the mute has
    taken effect (the volume reads 0) ['unmute'] calls [setVolume(1)]: the
    volume before the mute is not kept anywhere. *)
Theorem unmute_reads_current_volume
  (videoControls : VideoControls) (w : PlayerWorld) :
  falsy (uri videoControls) = false ->
  player videoControls = true ->
  (forall c, faulty w c = None) ->
  let muting := executeCommand "mute" videoControls w in
  let unmuting := executeCommand "unmute" videoControls w in
  (fst muting = Js.Normal true
   /\ calls (snd muting) = calls w ++ [setVolume 0])
  /\ (fst unmuting = Js.Normal true
      /\ calls (snd unmuting)
         = calls w ++ [setVolume (if (0 <? volume videoControls)%float
                                  then volume videoControls else 1%float)])
  /\ (volume videoControls = 0%float ->
      calls (snd unmuting) = calls w ++ [setVolume 1]).
Proof.
  intros U P F. cbv zeta.
  assert (executeCommand "unmute" videoControls w
          = (Js.Normal true,
             {| controls :=
                  Player.react
                    (setVolume (if (0 <? volume videoControls)%float
                                then volume videoControls else 1%float))
                    (controls w);
                calls :=
                  calls w ++ [setVolume (if (0 <? volume videoControls)%float
                                         then volume videoControls
                                         else 1%float)];
                faulty := faulty w |})) as Unmute.
  { rewrite executeCommand_run, U, P, unmute_call. cbn. now rewrite F. }
  split; [| split].
  - rewrite executeCommand_run, U, P. cbn. rewrite F. split; reflexivity.
  - rewrite Unmute. split; reflexivity.
  - intros V. rewrite Unmute, V. reflexivity.
Qed.

Lemma unmute_reads_current_volume_witness :
  falsy (uri Sample.silent) = false
  /\ player Sample.silent = true
  /\ volume Sample.silent = 0%float
  /\ calls (snd (executeCommand "unmute" Sample.silent
                   (Sample.playing Sample.silent)))
     = [setVolume 1].
Proof.
  split; [reflexivity |]. split; [reflexivity |]. split; [reflexivity |].
  exact (proj2 (proj2
    (unmute_reads_current_volume Sample.silent (Sample.playing Sample.silent)
       eq_refl eq_refl (fun _ => eq_refl))) eq_refl).
Defined.

(** C1, as stated, fails at half volume.  The volume before the mute is
    0.5, above 0; ['mute'] calls [setVolume(0)]; with the volume reading 0
    afterwards, ['unmute'] calls [setVolume(1)] and not [setVolume(0.5)]. *)
Lemma unmute_after_mute_counterexample :
  let muted :=
    snd (executeCommand "mute" Sample.half_volume
           (Sample.playing Sample.half_volume)) in
  let unmuted := snd (executeCommand "unmute" Sample.silent muted) in
  (0 <? volume Sample.half_volume)%float = true
  /\ calls muted = [setVolume 0]
  /\ volume Sample.silent = 0%float
  /\ calls unmuted = [setVolume 0; setVolume 1]
  /\ calls unmuted <> [setVolume 0; setVolume (volume Sample.half_volume)].
Proof.
  cbv zeta. repeat split; try reflexivity.
  intros E.
  apply (f_equal (fun l => match l with
                           | [_; setVolume v] => (v <? 1)%float
                           | _ => false
                           end)) in E.
  vm_compute in E. discriminate.
Qed.

(** The same run on the modelled player, where each dispatch reads the
    controls the previous one left: the volume goes 0.5, 0, 1. *)
Example mute_then_unmute :
  let muted := Js.exec (dispatch "mute") (Sample.playing Sample.half_volume) in
  let unmuted := Js.exec (dispatch "unmute") muted in
  controls muted = Sample.silent
  /\ calls unmuted = [setVolume 0; setVolume 1]
  /\ volume (controls unmuted) = 1%float.
Proof. cbv zeta. repeat split; reflexivity. Qed.

(** C10.  ['fullscreen'] and ['exitFullscreen'] are the same arm: both
    run the one call [toggleFullscreen()].  So an ['exitFullscreen'] that
    is dispatched (media loaded, player present and working) while the
    player is not in fullscreen enters it, and dispatching either command
    twice brings the flag back. *)
Theorem fullscreen_commands_are_aliases
  (videoControls : VideoControls) (w : PlayerWorld) :
  executeCommand "exitFullscreen" videoControls w
  = executeCommand "fullscreen" videoControls w
  /\ switch "fullscreen" (arms videoControls) = Some (unawaited toggleFullscreen)
  /\ switch "exitFullscreen" (arms videoControls)
     = Some (unawaited toggleFullscreen)
  /\ (falsy (uri (controls w)) = false -> player (controls w) = true ->
      faulty w toggleFullscreen = None ->
      isFullscreen (controls w) = false ->
      dispatch "exitFullscreen" w
      = (Js.Normal true,
         {| controls := Player.react toggleFullscreen (controls w);
            calls := calls w ++ [toggleFullscreen]; faulty := faulty w |})
      /\ isFullscreen (controls (Js.exec (dispatch "exitFullscreen") w)) = true)
  /\ (forall commandId,
        commandId = "fullscreen" \/ commandId = "exitFullscreen" ->
        isFullscreen
          (controls (Js.exec (dispatch commandId ;; dispatch commandId) w))
        = isFullscreen (controls w)).
Proof.
  split; [now rewrite !executeCommand_run |].
  split; [reflexivity |]. split; [reflexivity |]. split.
  - intros U P Ft Fs. unfold Js.exec.
    rewrite dispatch_run, executeCommand_run, U, P. cbn. rewrite Ft. cbn.
    split; [reflexivity | now rewrite Fs].
  - assert (forall commandId,
      commandId = "fullscreen" \/ commandId = "exitFullscreen" ->
      forall vc, switch commandId (arms vc) = Some (unawaited toggleFullscreen))
      as Sw.
    { intros ? [-> | ->] ?; reflexivity. }
    intros commandId Hc. unfold Js.exec, Js.bind.
    rewrite dispatch_run, executeCommand_run, (Sw _ Hc).
    destruct (falsy (uri (controls w))) eqn:U.
    { rewrite dispatch_run, executeCommand_run, U. reflexivity. }
    destruct (negb (player (controls w))) eqn:P.
    { rewrite dispatch_run, executeCommand_run, U, P. reflexivity. }
    cbn [call_of is_awaited negb].
    destruct (faulty w toggleFullscreen) as [[|] |] eqn:Ft.
    + rewrite dispatch_run, executeCommand_run, (Sw _ Hc). cbn.
      rewrite U, P, Ft. reflexivity.
    + rewrite dispatch_run, executeCommand_run, (Sw _ Hc). cbn.
      rewrite U, P, Ft. reflexivity.
    + rewrite dispatch_run, executeCommand_run, (Sw _ Hc). cbn.
      rewrite U, P, Ft. cbn. apply negb_involutive.
Qed.

(** From a windowed player, ['exitFullscreen'] enters fullscreen. *)
Example exitFullscreen_enters_fullscreen :
  isFullscreen (controls (Sample.playing Sample.half_volume)) = false
  /\ isFullscreen
       (controls (Js.exec (dispatch "exitFullscreen")
                    (Sample.playing Sample.half_volume))) = true.
Proof. split; reflexivity. Qed.

End DispatcherFacts.

(** ** Objects used as maps *)

Section ObjectFacts.
Context {V : Type}.

Lemma replace_in (key : string) (v : V) (o : JsObject.t V) (e : string * V) :
  In e (JsObject.replace key v o) -> e = (key, v) \/ In e o.
Proof.
  induction o as [| [k x] o IH]; simpl; [tauto |].
  destruct (String.eqb k key) eqn:K.
  - apply String.eqb_eq in K. subst k. intros [<- | Hin]; auto.
  - intros [<- | Hin]; auto. destruct (IH Hin); auto.
Qed.

Lemma replace_has (key : string) (v : V) (o : JsObject.t V) :
  JsObject.has key o = true -> In (key, v) (JsObject.replace key v o).
Proof.
  unfold JsObject.has. induction o as [| [k x] o IH]; simpl; [discriminate |].
  destruct (String.eqb k key) eqn:K.
  - apply String.eqb_eq in K. subst k. intros _. now left.
  - simpl. intros Hh. right. auto.
Qed.

Lemma insert_index_in (n : N) (key : string) (v : V) (o : JsObject.t V)
  (e : string * V) :
  In e (JsObject.insert_index n key v o) <-> e = (key, v) \/ In e o.
Proof.
  induction o as [| [k x] o IH]; simpl.
  - intuition congruence.
  - destruct (JsObject.array_index k) as [m |]; [destruct (m <? n)%N |];
      simpl; rewrite ?IH; intuition congruence.
Qed.

(** After [{ ...o, [key]: v }] the object holds [key: v], and every
    entry it holds is that one or was in [o]. *)
Lemma set_holds (key : string) (v : V) (o : JsObject.t V) :
  In (key, v) (JsObject.entries (JsObject.set key v o)).
Proof.
  unfold JsObject.set, JsObject.entries.
  destruct (JsObject.has key o) eqn:Hh; [now apply replace_has |].
  destruct (JsObject.array_index key).
  - apply insert_index_in. now left.
  - apply in_or_app. right. now left.
Qed.

Lemma set_entries (key : string) (v : V) (o : JsObject.t V) (e : string * V) :
  In e (JsObject.entries (JsObject.set key v o)) -> e = (key, v) \/ In e o.
Proof.
  unfold JsObject.set, JsObject.entries.
  destruct (JsObject.has key o); [apply replace_in |].
  destruct (JsObject.array_index key).
  - apply insert_index_in.
  - intros Hin. apply in_app_or in Hin. destruct Hin as [? | [<- | []]]; auto.
Qed.

(** A new key that is not an array index goes last: insertion order. *)
Lemma set_appends (key : string) (v : V) (o : JsObject.t V) :
  JsObject.has key o = false -> JsObject.array_index key = None ->
  JsObject.entries (JsObject.set key v o) = JsObject.entries o ++ [(key, v)].
Proof. intros Hh Hi. unfold JsObject.set. now rewrite Hh, Hi. Qed.

End ObjectFacts.

(** ** Resolver *)

Section ResolverFacts.
Context `{StringPrototype}.
Import Dispatcher Resolver.

Lemma normalize_empty : normalize "" = ""%string.
Proof. unfold normalize. now rewrite toLowerCase_empty, trim_empty. Qed.

(** [processVoiceCommand] dispatches what [resolve] selects. *)
Lemma processVoiceCommand_resolve (h : Hook) (customCommands : JsObject.t string)
  (text : string) (vc : VideoControls) :
  processVoiceCommand h customCommands text vc
  = match resolve h customCommands text with
    | Some commandId => executeCommand commandId vc
    | None => Js.ret false
    end.
Proof.
  unfold processVoiceCommand, resolve.
  destruct (string_falsy text); [reflexivity |].
  destruct (customCommand customCommands (normalize text)) as [[? ?] |];
    [reflexivity |].
  destruct (builtinCommand (normalize text)) as [[? ?] |]; reflexivity.
Qed.

(** The active locale plays no part. *)
Lemma processVoiceCommand_any_locale (h h' : Hook)
  (customCommands : JsObject.t string) (text : string) (vc : VideoControls) :
  processVoiceCommand h' customCommands text vc
  = processVoiceCommand h customCommands text vc.
Proof. reflexivity. Qed.

(** C3 (amended).  For every non-empty transcript and every overrides
    mapping: if some override phrase, lower-cased, is a substring of the
    lower-cased and trimmed transcript, then [processVoiceCommand]
    dispatches the [actionId] of the first such override in the order
    [Object.entries] gives, without looking at the built-in table. *)
Theorem custom_override_takes_precedence
  (h : Hook) (customCommands : JsObject.t string) (text : string)
  (videoControls : VideoControls) :
  string_falsy text = false ->
  (exists commandId trigger,
      In (commandId, trigger) (JsObject.entries customCommands)
      /\ heard (normalize text) trigger = true) ->
  exists commandId trigger before after,
    JsObject.entries customCommands = before ++ (commandId, trigger) :: after
    /\ (forall entry, In entry before -> heard (normalize text) (snd entry) = false)
    /\ heard (normalize text) trigger = true
    /\ resolve h customCommands text = Some commandId
    /\ processVoiceCommand h customCommands text videoControls
       = executeCommand commandId videoControls.
Proof.
  intros Ht [commandId [trigger [Hin Hh]]].
  destruct (find_first (fun entry => heard (normalize text) (snd entry))
              (JsObject.entries customCommands)) as
    [before [[c tr] [after [E [Hb [Hx Hf]]]]]].
  { now exists (commandId, trigger). }
  exists c, tr, before, after.
  assert (resolve h customCommands text = Some c) as R.
  { unfold resolve, customCommand. now rewrite Ht, Hf. }
  repeat split; auto.
  now rewrite processVoiceCommand_resolve, R.
Qed.

(** No declared trigger phrase is empty. *)
Lemma declared_phrases_nonempty (action : string) (triggers : list string)
  (phrase : string) :
  In (action, triggers) (JsObject.entries commands) -> In phrase triggers ->
  string_falsy phrase = false.
Proof.
  assert (forallb (fun entry => forallb (fun p => negb (string_falsy p))
                                  (snd entry)) commands = true) as Hall
    by (vm_compute; reflexivity).
  rewrite forallb_forall in Hall. intros Ha Hp.
  specialize (Hall _ Ha). simpl in Hall. rewrite forallb_forall in Hall.
  specialize (Hall _ Hp). now destruct (string_falsy phrase).
Qed.

(** C4.  For every transcript that no custom override matches: if a
    declared trigger phrase of action [A] is a substring of the (lower-cased,
    trimmed) transcript and no phrase of an action declared before [A] is,
    resolution returns [A]; the whole table is scanned, whatever the
    active locale.  (The declared phrases are written in lower case: that
    is the first hypothesis.) *)
Theorem builtin_phrase_resolves_in_declared_order
  (h : Hook) (customCommands : JsObject.t string) (text : string)
  (videoControls : VideoControls)
  (action : string) (triggers : list string) (phrase : string)
  (before after : list (string * list string)) :
  (forall a ts p, In (a, ts) (JsObject.entries commands) -> In p ts ->
                  toLowerCase p = p) ->
  (forall entry, In entry (JsObject.entries customCommands) ->
                 heard (normalize text) (snd entry) = false) ->
  JsObject.entries commands = before ++ (action, triggers) :: after ->
  In phrase triggers ->
  includes (normalize text) phrase = true ->
  (forall a ts p, In (a, ts) before -> In p ts ->
                  includes (normalize text) p = false) ->
  resolve h customCommands text = Some action
  /\ processVoiceCommand h customCommands text videoControls
     = executeCommand action videoControls
  /\ (forall h' : Hook,
        processVoiceCommand h' customCommands text videoControls
        = executeCommand action videoControls).
Proof.
  intros Hlow Hcustom Hsplit Hphrase Hinc Hbefore.
  assert (In (action, triggers) (JsObject.entries commands)) as Hdecl
    by (rewrite Hsplit; apply in_or_app; right; now left).
  assert (string_falsy text = false) as Ht.
  { destruct text; [| reflexivity]. rewrite normalize_empty in Hinc.
    apply includes_in_empty in Hinc. subst phrase.
    now pose proof (declared_phrases_nonempty _ _ _ Hdecl Hphrase). }
  assert (customCommand customCommands (normalize text) = None) as Hc
    by now apply find_none.
  assert (builtinCommand (normalize text) = Some (action, triggers)) as Hb.
  { unfold builtinCommand. rewrite Hsplit. apply find_split.
    - intros [a ts] Hin. simpl.
      destruct (existsb (heard (normalize text)) ts) eqn:Ex; [| reflexivity].
      apply existsb_exists in Ex. destruct Ex as [p [Hp Hh]].
      unfold heard in Hh. rewrite (Hlow a ts p) in Hh; auto.
      + now rewrite (Hbefore a ts p) in Hh.
      + rewrite Hsplit. apply in_or_app. now left.
    - simpl. apply existsb_exists. exists phrase. split; [assumption |].
      unfold heard. now rewrite (Hlow action triggers phrase). }
  assert (resolve h customCommands text = Some action) as R.
  { unfold resolve. now rewrite Ht, Hc, Hb. }
  split; [exact R |]. split.
  - now rewrite processVoiceCommand_resolve, R.
  - intros h'. rewrite (processVoiceCommand_any_locale h h').
    now rewrite processVoiceCommand_resolve, R.
Qed.

(** C9.  The [default] arm of the dispatcher can be reached through the
    hook's own operations: [saveCustomCommand] takes any [actionId]; once
    an override is saved under an [actionId] that is not enumerated (and no
    override of another action matches), a transcript containing its
    phrase resolves to that [actionId], [executeCommand] falls to
    [default], and [processVoiceCommand] returns [false] with no call on
    the player. *)
Theorem unknown_action_reaches_default
  (h : Hook) (customCommands : JsObject.t string)
  (commandId phrase text : string)
  (videoControls : VideoControls) (w : PlayerWorld) :
  enumerated commandId = false ->
  string_falsy text = false ->
  heard (normalize text) phrase = true ->
  (forall entry, In entry (JsObject.entries customCommands) ->
                 fst entry <> commandId ->
                 heard (normalize text) (snd entry) = false) ->
  falsy (uri videoControls) = false ->
  player videoControls = true ->
  let saved := saveCustomCommand commandId phrase customCommands in
  resolve h saved text = Some commandId
  /\ switch commandId (arms videoControls) = None
  /\ processVoiceCommand h saved text videoControls w = (Js.Normal false, w).
Proof.
  intros En Ht Hh Hothers U P. cbv zeta.
  assert (switch commandId (arms videoControls) = None) as Sw
    by now apply switch_enumerated.
  assert (resolve h (saveCustomCommand commandId phrase customCommands) text
          = Some commandId) as R.
  { destruct (find_first (fun entry => heard (normalize text) (snd entry))
                (JsObject.entries (saveCustomCommand commandId phrase
                                     customCommands))) as
      [before [[c tr] [after [E [Hb [Hx Hf]]]]]].
    { exists (commandId, phrase). split; [apply set_holds | exact Hh]. }
    assert (In (c, tr) (JsObject.entries
                          (saveCustomCommand commandId phrase customCommands)))
      as Hin by (rewrite E; apply in_or_app; right; now left).
    apply set_entries in Hin.
    assert (c = commandId) as ->.
    { destruct Hin as [Eq | Hin]; [congruence |].
      destruct (String.eqb c commandId) eqn:Ec;
        [now apply String.eqb_eq in Ec |].
      apply String.eqb_neq in Ec.
      specialize (Hothers (c, tr) Hin Ec). simpl in Hx, Hothers. congruence. }
    unfold resolve, customCommand. now rewrite Ht, Hf. }
  split; [exact R |]. split; [exact Sw |].
  rewrite processVoiceCommand_resolve, R, executeCommand_run, U, P, Sw.
  reflexivity.
Qed.

End ResolverFacts.

(** ** The resolver on concrete transcripts *)

Section ResolverRuns.
Import Dispatcher Resolver.
#[local] Existing Instance AsciiText.ascii_text.

Lemma forallb_phrases (f : string -> bool) (table : list (string * list string)) :
  forallb (fun entry => forallb f (snd entry)) table = true ->
  forall a ts p, In (a, ts) table -> In p ts -> f p = true.
Proof.
  intros Hall a ts p Ha Hp. rewrite forallb_forall in Hall.
  specialize (Hall _ Ha). simpl in Hall. rewrite forallb_forall in Hall. auto.
Qed.

(** The declared phrases are in lower case already. *)
Lemma declared_phrases_lowercase (a : string) (ts : list string) (p : string) :
  In (a, ts) (JsObject.entries commands) -> In p ts -> toLowerCase p = p.
Proof.
  intros Ha Hp. apply String.eqb_eq.
  apply (forallb_phrases (fun p => String.eqb (toLowerCase p) p) commands)
    with (a := a) (ts := ts); try assumption.
  vm_compute. reflexivity.
Qed.

(** The end-to-end example of the specification. *)
Example play_the_video :
  processVoiceCommand Sample.english_web [] "play the video"
    Sample.half_volume (Sample.playing Sample.half_volume)
  = (Js.Normal true,
     {| controls := Sample.half_volume; calls := [play];
        faulty := fun _ => None |}).
Proof. reflexivity. Qed.

(** The other end-to-end example: the Chinese phrase for ['volumeUp'],
    under the English locale, raises the volume by 0.1, up to 1. *)
Example volume_up_in_chinese :
  let near_top :=
    {| uri := Some "movie.mp4"; player := true; volume := 0.95%float;
       isFullscreen := false |} in
  calls (snd (processVoiceCommand Sample.english_web [] "音量調高"
                Sample.half_volume (Sample.playing Sample.half_volume)))
  = [setVolume 0.6%float]
  /\ calls (snd (processVoiceCommand Sample.english_web [] "音量調高"
                   near_top (Sample.playing near_top)))
     = [setVolume 1].
Proof. split; reflexivity. Qed.

(** An override saved for ['pause'] under the phrase ["play"] wins over
    the built-in phrase ["play"] of ['play']. *)
Example override_shadows_builtin :
  builtinCommand "play" = Some ("play", ["play"; "播放"; "再生"; "reproducir"; "jouer"; "spielen"; "воспроизвести"; "تشغيل"; "재생"; "start"])
  /\ resolve Sample.english_web (saveCustomCommand "pause" "play" []) "play"
     = Some "pause".
Proof. split; reflexivity. Qed.

(** Overrides are tried in property order: an [actionId] that is an array
    index comes before the keys saved earlier. *)
Example override_order_is_property_order :
  let saved := saveCustomCommand "7" "play" (saveCustomCommand "b" "video" []) in
  JsObject.entries saved = [("7", "play"); ("b", "video")]
  /\ resolve Sample.english_web saved "play video" = Some "7".
Proof. split; reflexivity. Qed.

(** An earlier declared phrase shadows a later one that contains it. *)
Example unmute_is_heard_as_mute :
  resolve Sample.english_web [] "unmute" = Some "mute".
Proof. reflexivity. Qed.

Lemma custom_override_takes_precedence_witness :
  string_falsy "Play it" = false
  /\ exists commandId trigger before after,
       JsObject.entries (saveCustomCommand "pause" "play" [])
       = before ++ (commandId, trigger) :: after
       /\ (forall entry, In entry before ->
                         heard (normalize "Play it") (snd entry) = false)
       /\ heard (normalize "Play it") trigger = true
       /\ resolve Sample.english_web (saveCustomCommand "pause" "play" [])
            "Play it" = Some commandId
       /\ processVoiceCommand Sample.english_web
            (saveCustomCommand "pause" "play" []) "Play it" Sample.half_volume
          = executeCommand commandId Sample.half_volume.
Proof.
  split; [reflexivity |].
  apply (custom_override_takes_precedence Sample.english_web
           (saveCustomCommand "pause" "play" []) "Play it" Sample.half_volume).
  - reflexivity.
  - exists "pause", "play". split; [now left | reflexivity].
Defined.

(** C3, as stated, fails on the empty transcript: the phrase of the saved
    override (the empty phrase) occurs in it, and the override is the
    first and only one, yet [processVoiceCommand] returns [false] at its
    first line and dispatches nothing, where dispatching the override's
    ['play'] would call the player and return [true]. *)
Lemma empty_transcript_counterexample :
  let customCommands := saveCustomCommand "play" "" [] in
  let w := Sample.playing Sample.half_volume in
  JsObject.entries customCommands = [("play", "")]
  /\ heard (normalize "") "" = true
  /\ resolve Sample.english_web customCommands "" = None
  /\ processVoiceCommand Sample.english_web customCommands ""
       Sample.half_volume w = (Js.Normal false, w)
  /\ processVoiceCommand Sample.english_web customCommands ""
       Sample.half_volume w
     <> executeCommand "play" Sample.half_volume w.
Proof.
  cbv zeta. split; [reflexivity |]. split; [reflexivity |].
  split; [reflexivity |]. split; [reflexivity |].
  intros E. vm_compute in E. discriminate E.
Qed.

Lemma builtin_phrase_resolves_in_declared_order_witness :
  includes (normalize "音量調高") "音量調高" = true
  /\ resolve Sample.english_web [] "音量調高" = Some "volumeUp"
  /\ processVoiceCommand Sample.english_web [] "音量調高" Sample.half_volume
     = executeCommand "volumeUp" Sample.half_volume
  /\ (forall h' : Hook,
        processVoiceCommand h' [] "音量調高" Sample.half_volume
        = executeCommand "volumeUp" Sample.half_volume).
Proof.
  split; [reflexivity |].
  apply (builtin_phrase_resolves_in_declared_order Sample.english_web []
           "音量調高" Sample.half_volume "volumeUp"
           ["volume up"; "louder"; "increase volume"; "音量調高"; "音量上げる"; "subir volumen"; "augmenter volume"; "громче"; "رفع الصوت"; "볼륨 올리기"]
           "音量調高" (firstn 9 commands) (skipn 10 commands)).
  - exact declared_phrases_lowercase.
  - intros entry [].
  - reflexivity.
  - simpl. tauto.
  - reflexivity.
  - intros a ts p Ha Hp.
    apply negb_true_iff.
    apply (forallb_phrases (fun p => negb (includes (normalize "音量調高") p))
             (firstn 9 commands)) with (a := a) (ts := ts); auto.
Defined.

Lemma unknown_action_reaches_default_witness :
  enumerated "dance" = false
  /\ heard (normalize "zzz") "zzz" = true
  /\ resolve Sample.english_web (saveCustomCommand "dance" "zzz" []) "zzz"
     = Some "dance"
  /\ switch "dance" (arms Sample.half_volume) = None
  /\ processVoiceCommand Sample.english_web
       (saveCustomCommand "dance" "zzz" []) "zzz" Sample.half_volume
       (Sample.playing Sample.half_volume)
     = (Js.Normal false, Sample.playing Sample.half_volume).
Proof.
  split; [reflexivity |]. split; [reflexivity |].
  apply (unknown_action_reaches_default Sample.english_web [] "dance" "zzz"
           "zzz" Sample.half_volume (Sample.playing Sample.half_volume));
    try reflexivity.
  intros entry [].
Defined.

End ResolverRuns.

(** ** Session controller *)

(** Runs a callback of the hook on a world: unfolds the callback and the
    monad, then splits on what the callback inspects. *)
Ltac js_unfold :=
  unfold Js.exec, Js.result,
    VoiceButton.recordButton_onPress, VoiceButton.persistentToggle_onPress,
    Session.toggleRecording, Session.stopRecording, Session.startRecording,
    Session.startMediaRecorder, Session.togglePersistentMode,
    Session.stopPersistentListening, Session.timerFires, Session.runTimer,
    Session.persistent_onend, Session.persistent_onerror,
    Session.persistent_onresult, Session.persistent_onstart,
    Session.oneshot_onresult, Session.oneshot_onerror,
    Session.recorder_ondataavailable, Session.lastCommand_expires,
    Session.startPersistentListening, Session.newRecognition,
    Session.getUserMedia, Session.haptic, Session.setTimeout,
    Session.clearTimeout, Session.set_timers, Session.allocate,
    Session.effect, Session.set_restartTimeoutRef,
    Session.set_persistentRecognitionRef, Session.set_audioChunksRef,
    Session.set_mediaRecorderRef, Session.set_recognitionRef,
    Session.setState,
    Js.try_catch, Js.bind, Js.ret, Js.throw, Js.get, Js.modify in *.

Ltac js_cases :=
  repeat (cbn in *;
          match goal with
          | |- context [match ?x with _ => _ end] =>
              lazymatch x with
              | context [match _ with _ => _ end] => fail
              | _ => destruct x eqn:?
              end
          end);
  cbn in *.

Ltac js_run := js_unfold; js_cases.

Section SessionFacts.
Context `{StringPrototype}.
Import Js Session Execution.

(** C5 (amended).  [recognition.onerror] of the persistent session never
    throws, and: ['no-speech'] and ['aborted'] change nothing at all;
    ['audio-capture'] and ['not-allowed'] (permission denied) set
    [isPersistentMode] and [isListening] to false and an error message;
    ['network'] leaves the observable state as it is and schedules a
    restart in 3000 ms; any other code sets an error message and drops
    [isListening], leaving [isPersistentMode] as it is. *)
Theorem persistent_error_classification (code : string) (w : World) :
  let after := exec (persistent_onerror code) w in
  throws (result (persistent_onerror code) w) = false
  /\ (code = "no-speech" \/ code = "aborted" -> after = w)
  /\ (code = "audio-capture" \/ code = "not-allowed" ->
      exists message,
        string_falsy message = false
        /\ state after
           = with_isPersistentMode false
               (with_isListening false (with_error (Some message) (state w))))
  /\ (code = "network" ->
      state after = state w
      /\ restartTimeoutRef after = Some (fresh w)
      /\ In (fresh w, restartAfterNetworkError) (timers after)
      /\ In (SetTimeout (fresh w) 3000) (trace after))
  /\ (code <> "no-speech" -> code <> "aborted" -> code <> "audio-capture" ->
      code <> "not-allowed" -> code <> "network" ->
      state after
      = with_isListening false
          (with_error (Some ("Speech recognition error: " ++ code)%string)
             (state w))
      /\ isPersistentMode (state after) = isPersistentMode (state w)).
Proof.
  cbv zeta. split; [| split; [| split; [| split]]].
  - js_run; reflexivity.
  - intros [-> | ->]; reflexivity.
  - intros [-> | ->]; eexists; (split; [| reflexivity]); reflexivity.
  - intros ->. js_run; repeat split; auto;
      apply in_or_app; right; now left.
  - intros N1 N2 N3 N4 N5.
    apply String.eqb_neq in N1, N2, N3, N4, N5.
    unfold exec, persistent_onerror. rewrite N1, N2, N3, N4, N5.
    split; reflexivity.
Qed.

(** C5, as stated, fails on ['network']: it is none of the four codes the
    claim names, yet it sets no error and does not drop [isListening]. *)
Lemma network_error_counterexample :
  let after := exec (persistent_onerror "network") Sample.listening in
  (String.eqb "network" "no-speech" = false
   /\ String.eqb "network" "aborted" = false
   /\ String.eqb "network" "audio-capture" = false
   /\ String.eqb "network" "not-allowed" = false)
  /\ isListening (state Sample.listening) = true
  /\ error (state after) = None
  /\ isListening (state after) = true
  /\ state after = state Sample.listening.
Proof. cbv zeta. repeat split; reflexivity. Qed.

(** C2 (amended).  While [isPersistentMode] is true the record button of
    [VoiceButton] is disabled: a press does not reach [toggleRecording],
    the session state, the refs and the trace of platform calls stay as
    they are (no recognizer, no recorder is started). *)
Theorem record_button_is_disabled_in_persistent_mode
  (h : Hook) (o : Outside) (w : World) :
  isPersistentMode (state w) = true ->
  VoiceButton.recordButton_onPress h o w = (Normal None, w).
Proof.
  intros P. unfold VoiceButton.recordButton_onPress, bind, get.
  now rewrite P, orb_true_r.
Qed.

(** *** Stopping *)

(** [stopPersistentListening] never throws and, in any world, ends on
    this state. *)
Lemma stopPersistentListening_state (w : World) :
  throws (result stopPersistentListening w) = false
  /\ state (exec stopPersistentListening w)
     = with_error None
         (with_isPersistentMode false (with_isListening false (state w)))
  /\ persistentRecognitionRef (exec stopPersistentListening w) = None
  /\ restartTimeoutRef (exec stopPersistentListening w) = None.
Proof. js_run; repeat split; first [reflexivity | assumption]. Qed.

(** C8 (amended).  A stop with no session active never throws.
    [stopRecording] with no one-shot session returns [null] and leaves the
    world as it is but for [isProcessing], which it clears;
    [stopPersistentListening] with no persistent session leaves the world
    as it is but for [error], which it clears ([isProcessing] is not
    touched).  In both cases a second stop leaves everything as the first
    one left it. *)
Theorem stop_when_idle (h : Hook) (o : Outside) (w : World) :
  (recognitionRef w = None -> mediaRecorderRef w = None ->
   isRecording (state w) = false ->
   stopRecording h o w
   = (Normal None, exec (setState (with_isProcessing false)) w)
   /\ exec (stopRecording h o) (exec (stopRecording h o) w)
      = exec (stopRecording h o) w)
  /\ (persistentRecognitionRef w = None -> restartTimeoutRef w = None ->
      isListening (state w) = false -> isPersistentMode (state w) = false ->
      stopPersistentListening w
      = (Normal tt, exec (setState (with_error None)) w)
      /\ isProcessing (state (exec stopPersistentListening w))
         = isProcessing (state w)
      /\ exec stopPersistentListening (exec stopPersistentListening w)
         = exec stopPersistentListening w).
Proof.
  destruct w as [[rec proc cmd err lis per] r m a p tr tm f trc].
  split; cbn; intros; subst; js_run; repeat split; reflexivity.
Qed.

(** *** Restart timers *)

















Lemma reachable_run (h : Hook) (evs : list Event) (w : World) :
  reachable h w -> reachable h (run h evs w).
Proof.
  revert w. induction evs as [| ev evs IH]; intros w R; [exact R |].
  apply IH. now constructor.
Qed.


End SessionFacts.

Lemma record_button_is_disabled_in_persistent_mode_witness :
  isPersistentMode (state Sample.listening) = true
  /\ VoiceButton.recordButton_onPress (H := AsciiText.ascii_text)
       Sample.english_web Sample.fine Sample.listening
     = (Js.Normal None, Sample.listening).
Proof.
  split; [reflexivity |].
  exact (record_button_is_disabled_in_persistent_mode
           (H := AsciiText.ascii_text)
           Sample.english_web Sample.fine Sample.listening eq_refl).
Defined.

(** C2, as stated, fails: [toggleRecording] does not look at
    [isPersistentMode].  Called while persistent mode is on (and no
    one-shot recording is running) it starts a one-shot recognizer and
    sets [isRecording]. *)
Lemma toggleRecording_counterexample :
  let before := Sample.listening in
  let after :=
    Js.exec (Session.toggleRecording (H := AsciiText.ascii_text)
               Sample.english_web Sample.fine) before in
  isPersistentMode (state before) = true
  /\ isRecording (state before) = false
  /\ isRecording (state after) = true
  /\ recognitionRef after = Some 2
  /\ trace after = trace before ++ [RecognitionStart 2 false "en"].
Proof. cbv zeta. repeat split; reflexivity. Qed.


(** Had the stop not happened, the pending timer would have restarted
    the recognizer. *)
Example pending_restart_fires :
  trace (Execution.step (H := AsciiText.ascii_text) Sample.english_web
           (Execution.timer_fires Sample.fine 2) Sample.restart_pending)
  = trace Sample.restart_pending
    ++ [RecognitionStop 1; ClearTimeout 2; RecognitionStart 3 true "en"].
Proof. reflexivity. Qed.

(** On a hook that has done nothing yet, either stop changes nothing. *)
Example stop_on_a_fresh_hook :
  Session.stopRecording (H := AsciiText.ascii_text) Sample.chinese_phone
    Sample.denied Session.initialWorld
  = (Js.Normal None, Session.initialWorld)
  /\ Session.stopPersistentListening Session.initialWorld
     = (Js.Normal tt, Session.initialWorld).
Proof. split; reflexivity. Qed.

(** A denied permission ends persistent mode. *)
Example permission_denied_ends_persistent_mode :
  state (Js.exec (Session.persistent_onerror "not-allowed") Sample.listening)
  = {| isRecording := false; isProcessing := false; lastCommand := None;
       error := Some "Microphone permission denied. Please allow microphone access.";
       isListening := false; isPersistentMode := false |}.
Proof. reflexivity. Qed.

(** C8, as stated, fails for [stopPersistentListening]: with no
    persistent session, after a one-shot recording failed to start, it
    clears the error that is shown (and leaves [isProcessing] to itself),
    so the observable state changes in a field other than
    [isProcessing]. *)
Lemma stop_clears_error_counterexample :
  let before := Sample.failed_to_record in
  let after := Js.exec Session.stopPersistentListening before in
  (persistentRecognitionRef before = None
   /\ restartTimeoutRef before = None
   /\ isListening (state before) = false
   /\ isPersistentMode (state before) = false)
  /\ error (state before) = Some "voice.error"
  /\ error (state after) = None
  /\ state after <> with_isProcessing false (state before)
  /\ state after <> state before.
Proof.
  cbv zeta. split; [repeat split; reflexivity |].
  split; [reflexivity |]. split; [reflexivity |].
  split; intros E; vm_compute in E; discriminate E.
Qed.

(* ================================================================== *)
(** * Part III. Further properties of the code *)
(* ================================================================== *)

(** ** Comparisons of numbers *)

Section ComparisonFacts.
#[local] Open Scope float_scope.

Lemma SFltb_asym (x y : spec_float) : SFltb x y = true -> SFltb y x = false.
Proof.
  unfold SFltb.
  destruct x as [sx | sx | | sx mx ex], y as [sy | sy | | sy my ey];
    simpl; try discriminate; try reflexivity;
    try (destruct sx; simpl; try discriminate; reflexivity);
    try (destruct sy; simpl; try discriminate; reflexivity);
    try (destruct sx, sy; simpl; try discriminate; reflexivity).
  assert (Pos.compare_cont Eq my mx = CompOpp (Pos.compare_cont Eq mx my))
    as Anti by (now rewrite Pos.compare_cont_antisym).
  destruct sx, sy; simpl; try discriminate; try reflexivity;
    rewrite (Z.compare_antisym ex ey);
    destruct (ex ?= ey)%Z; simpl; try discriminate; try reflexivity;
    rewrite Anti; destruct (Pos.compare_cont Eq mx my); simpl;
    try discriminate; reflexivity.
Qed.

(** [a < b] excludes [b < a]. *)
Lemma ltb_asym (a b : float) : (a <? b) = true -> (b <? a) = false.
Proof. rewrite !ltb_spec. apply SFltb_asym. Qed.

(** [Math.max(a, b)] is never below [a], and [Math.min(a, b)] never above
    it: the comparisons are false also when the result is [NaN]. *)
Lemma Math_max_floor (a b : float) :
  is_nan a = false -> Num.is_neg_zero a = false ->
  (Num.Math_max a b <? a) = false.
Proof.
  intros Na Nz. unfold Num.Math_max. rewrite Na, Nz. cbn [orb].
  assert ((a <? a) = false) as Irr.
  { destruct (a <? a) eqn:E; [| reflexivity]. now rewrite (ltb_asym _ _ E) in E. }
  destruct (is_nan b) eqn:Nb.
  - unfold is_nan in Na. rewrite ltb_spec.
    change (Prim2SF nan) with S754_nan. reflexivity.
  - destruct (a <? b) eqn:L.
    + now apply ltb_asym.
    + destruct (b <? a); exact Irr.
Qed.

Lemma Math_min_ceiling (a b : float) :
  is_nan a = false -> (a <? Num.Math_min a b) = false.
Proof.
  intros Na. unfold Num.Math_min. rewrite Na. cbn [orb].
  assert ((a <? a) = false) as Irr.
  { destruct (a <? a) eqn:E; [| reflexivity]. now rewrite (ltb_asym _ _ E) in E. }
  destruct (is_nan b) eqn:Nb.
  - rewrite ltb_spec. change (Prim2SF nan) with S754_nan.
    unfold SFltb. destruct (Prim2SF a); reflexivity.
  - destruct (a <? b) eqn:L; [exact Irr |].
    destruct (b <? a) eqn:G; [exact L |].
    destruct (Num.is_neg_zero a); [exact Irr | exact L].
Qed.

End ComparisonFacts.

(** ** Dispatcher, continued *)

Section DispatcherMore.
Import Dispatcher.
#[local] Open Scope float_scope.

(** X1.  The relative volume commands are clamped where they are
    computed: ['volumeUp'] never asks the player for a volume above 1 and
    ['volumeDown'] never for one below 0, whatever the current volume
    reads. *)
Theorem volume_steps_are_clamped (videoControls : VideoControls) :
  let up := Num.Math_min 1 (volume videoControls + 0.1) in
  let down := Num.Math_max 0 (volume videoControls - 0.1) in
  switch "volumeUp" (arms videoControls) = Some (awaited (setVolume up))
  /\ (1 <? up) = false
  /\ switch "volumeDown" (arms videoControls) = Some (awaited (setVolume down))
  /\ (down <? 0) = false.
Proof.
  cbv zeta. split; [reflexivity |]. split.
  - now apply Math_min_ceiling.
  - split; [reflexivity |]. now apply Math_max_floor.
Qed.

(** X2.  The volume button of [VideoControls] and the voice commands
    agree: while the volume is above 0 the button makes the call of
    ['mute'], and otherwise the call of ['unmute'], which is then
    [setVolume(1)]. *)
Theorem volume_button_agrees_with_voice (videoControls : VideoControls) :
  ((0 <? volume videoControls) = true ->
   switch "mute" (arms videoControls)
   = Some (awaited (VideoControlsPanel.volumeButton_onPress
                      (volume videoControls))))
  /\ ((0 <? volume videoControls) = false ->
      switch "unmute" (arms videoControls)
      = Some (awaited (VideoControlsPanel.volumeButton_onPress
                         (volume videoControls)))
      /\ VideoControlsPanel.volumeButton_onPress (volume videoControls)
         = setVolume 1).
Proof.
  unfold VideoControlsPanel.volumeButton_onPress. split; intros V.
  - rewrite V. reflexivity.
  - rewrite unmute_call, V. split; reflexivity.
Qed.

End DispatcherMore.

(** ** The controls panel and the animation *)

Section PanelFacts.
Import VideoControlsPanel.
#[local] Open Scope float_scope.

(** The speed button, arm by arm. *)
Lemma speedButton_onPress_run (speed : float) :
  speedButton_onPress speed
  = Some (if 0.5 =? speed then 1
          else if 1 =? speed then 1.25
          else if 1.25 =? speed then 1.5
          else if 1.5 =? speed then 2
          else 0.5).
Proof.
  unfold speedButton_onPress, indexOf, speeds. cbn [indexOf_from length].
  destruct (0.5 =? speed); [reflexivity |].
  destruct (1 =? speed); [reflexivity |].
  destruct (1.25 =? speed); [reflexivity |].
  destruct (1.5 =? speed); [reflexivity |].
  destruct (2 =? speed); reflexivity.
Qed.

(** X3.  The speed button always sets one of the five listed speeds; from
    a speed that is not listed ([NaN] included) it sets 0.5, the first;
    and from a listed speed five presses come back to it. *)
Theorem speed_button_cycles (speed : float) :
  (exists next, speedButton_onPress speed = Some next /\ In next speeds)
  /\ (indexOf speeds speed = (-1)%Z -> speedButton_onPress speed = Some 0.5)
  /\ (indexOf speeds speed <> (-1)%Z ->
      exists back, speedButton_presses 5 speed = Some back
                   /\ (back =? speed) = true).
Proof.
  cbn [speedButton_presses]. rewrite speedButton_onPress_run.
  unfold indexOf, speeds. cbn [indexOf_from].
  destruct (0.5 =? speed) eqn:E1.
  { split; [eexists; split; [reflexivity | cbn; tauto] |].
    split; [discriminate |]. intros _. exists 0.5. now split. }
  destruct (1 =? speed) eqn:E2.
  { split; [eexists; split; [reflexivity | cbn; tauto] |].
    split; [discriminate |]. intros _. exists 1. now split. }
  destruct (1.25 =? speed) eqn:E3.
  { split; [eexists; split; [reflexivity | cbn; tauto] |].
    split; [discriminate |]. intros _. exists 1.25. now split. }
  destruct (1.5 =? speed) eqn:E4.
  { split; [eexists; split; [reflexivity | cbn; tauto] |].
    split; [discriminate |]. intros _. exists 1.5. now split. }
  split; [eexists; split; [reflexivity | cbn; tauto] |].
  destruct (2 =? speed) eqn:E5.
  - split; [discriminate |]. intros _. exists 2. now split.
  - split; [reflexivity |]. intros N. now elim N.
Qed.

(** X4.  The edges of the animation are never thinner than 6 and the
    breathing never faster than 600 ms a half, whatever the audio level
    and the screen: both are floored by a last [Math.max], so neither
    [thickness < 6] nor [duration < 600] ever holds (also where an input
    is [NaN] and the result is [NaN]). *)
Theorem animation_has_floors (audioLevel screenWidth screenHeight : float) :
  (EdgeAnimation.getEdgeThickness audioLevel screenWidth screenHeight <? 6)
  = false
  /\ (EdgeAnimation.breathingDuration audioLevel <? 600) = false.
Proof.
  unfold EdgeAnimation.getEdgeThickness, EdgeAnimation.breathingDuration.
  cbv zeta. split; now apply Math_max_floor.
Qed.

End PanelFacts.

(** ** Resolver, continued *)

Lemma find_decompose {A : Type} (f : A -> bool) (l : list A) (x : A) :
  find f l = Some x ->
  exists before after,
    l = before ++ x :: after
    /\ f x = true
    /\ (forall y, In y before -> f y = false).
Proof.
  induction l as [| a l IH]; simpl; [discriminate |].
  destruct (f a) eqn:Fa.
  - intros E. injection E as <-. exists [], l. repeat split; auto.
    intros y [].
  - intros E. destruct (IH E) as [before [after [-> [Fx Hb]]]].
    exists (a :: before), after. repeat split; auto.
    intros y [<- | Hy]; auto.
Qed.

Lemma find_reaches {A : Type} (f : A -> bool) (l1 l2 : list A) (x : A) :
  f x = true ->
  exists y, find f (l1 ++ x :: l2) = Some y /\ In y (l1 ++ [x]).
Proof.
  intros Fx. induction l1 as [| a l1 [y [Hf Hin]]]; simpl.
  - rewrite Fx. exists x. split; [reflexivity | now left].
  - destruct (f a).
    + exists a. split; [reflexivity | now left].
    + exists y. split; [assumption | now right].
Qed.

Section ResolverMore.
Context `{StringPrototype}.
Import Dispatcher Resolver.

(** Every action of the phrase table is a command of the dispatcher. *)
Lemma declared_actions_enumerated (action : string) (triggers : list string) :
  In (action, triggers) (JsObject.entries commands) ->
  enumerated action = true.
Proof.
  assert (forallb (fun entry => enumerated (fst entry)) commands = true)
    as Hall by (vm_compute; reflexivity).
  rewrite forallb_forall in Hall. intros Hin. exact (Hall _ Hin).
Qed.

(** X5.  What [processVoiceCommand] selects is heard: if it dispatches
    [commandId], then the transcript is not empty, and either [commandId]
    is the first override whose phrase occurs in it, or no override phrase
    occurs in it and [commandId] is the first action of the phrase table
    one of whose phrases does. *)
Theorem resolve_is_heard (h : Hook) (customCommands : JsObject.t string)
  (text commandId : string) :
  resolve h customCommands text = Some commandId ->
  string_falsy text = false
  /\ ((exists trigger before after,
         JsObject.entries customCommands
         = before ++ (commandId, trigger) :: after
         /\ heard (normalize text) trigger = true
         /\ (forall entry, In entry before ->
                           heard (normalize text) (snd entry) = false))
      \/ ((forall entry, In entry (JsObject.entries customCommands) ->
                         heard (normalize text) (snd entry) = false)
          /\ exists triggers before after,
               JsObject.entries commands
               = before ++ (commandId, triggers) :: after
               /\ (exists phrase, In phrase triggers
                                  /\ heard (normalize text) phrase = true)
               /\ (forall entry phrase, In entry before ->
                     In phrase (snd entry) ->
                     heard (normalize text) phrase = false))).
Proof.
  unfold resolve. destruct (string_falsy text) eqn:Ht; [discriminate |].
  split; [reflexivity |].
  destruct (customCommand customCommands (normalize text)) as [[c tr] |] eqn:Hc.
  - injection H0 as <-. left. unfold customCommand in Hc.
    apply find_decompose in Hc. destruct Hc as [before [after [E [Hx Hb]]]].
    exists tr, before, after. auto.
  - right. unfold customCommand in Hc. rewrite find_none in Hc.
    split; [exact Hc |].
    destruct (builtinCommand (normalize text)) as [[a ts] |] eqn:Hb;
      [| discriminate].
    injection H0 as <-. unfold builtinCommand in Hb.
    apply find_decompose in Hb. destruct Hb as [before [after [E [Hx Hbef]]]].
    exists ts, before, after. split; [exact E |]. split.
    + simpl in Hx. apply existsb_exists in Hx. exact Hx.
    + intros entry phrase Hin Hp. specialize (Hbef entry Hin).
      destruct (heard (normalize text) phrase) eqn:Hh; [| reflexivity].
      assert (existsb (heard (normalize text)) (snd entry) = true) as Ex
        by (apply existsb_exists; now exists phrase).
      congruence.
Qed.

(** X6.  A transcript in which nothing is heard is answered by [false]
    and no call: [processVoiceCommand] selects no command exactly when the
    transcript is empty or neither an override phrase nor a declared
    phrase occurs in it, and it then returns [false] and leaves the player
    alone. *)
Theorem unheard_transcript_is_refused (h : Hook)
  (customCommands : JsObject.t string) (text : string)
  (videoControls : VideoControls) (w : PlayerWorld) :
  (resolve h customCommands text = None
   <-> (text = ""%string
        \/ ((forall entry, In entry (JsObject.entries customCommands) ->
                           heard (normalize text) (snd entry) = false)
            /\ (forall entry phrase, In entry (JsObject.entries commands) ->
                  In phrase (snd entry) ->
                  heard (normalize text) phrase = false))))
  /\ (resolve h customCommands text = None ->
      processVoiceCommand h customCommands text videoControls w
      = (Js.Normal false, w)).
Proof.
  split.
  - unfold resolve. destruct text as [| c text]; cbn [string_falsy].
    { split; auto. }
    set (command := normalize (String c text)).
    destruct (customCommand customCommands command) as [[a tr] |] eqn:Hc.
    { split; [discriminate |]. intros [E | [Hn _]]; [discriminate |].
      unfold customCommand in Hc. apply find_some in Hc.
      destruct Hc as [Hin Hh]. rewrite (Hn _ Hin) in Hh. discriminate. }
    unfold customCommand in Hc. rewrite find_none in Hc.
    destruct (builtinCommand command) as [[a ts] |] eqn:Hb.
    { split; [discriminate |]. intros [E | [_ Hn]]; [discriminate |].
      unfold builtinCommand in Hb. apply find_some in Hb.
      destruct Hb as [Hin Hh]. simpl in Hh. apply existsb_exists in Hh.
      destruct Hh as [p [Hp Hh]]. rewrite (Hn _ p Hin Hp) in Hh.
      discriminate. }
    split; [| reflexivity]. intros _. right. split; [exact Hc |].
    unfold builtinCommand in Hb. rewrite find_none in Hb.
    intros entry phrase Hin Hp. specialize (Hb entry Hin).
    destruct (heard command phrase) eqn:Hh; [| reflexivity].
    assert (existsb (heard command) (snd entry) = true) as Ex
      by (apply existsb_exists; now exists phrase).
    congruence.
  - intros R. now rewrite processVoiceCommand_resolve, R.
Qed.

(** X7.  [processVoiceCommand] never throws and makes at most one call on
    the player: it returns [true] only after exactly one call, and when it
    returns [false] either the player was left alone or the one call it
    made failed. *)
Theorem processVoiceCommand_calls_at_most_once (h : Hook)
  (customCommands : JsObject.t string) (text : string)
  (videoControls : VideoControls) (w : PlayerWorld) :
  let outcome := processVoiceCommand h customCommands text videoControls w in
  (exists b, fst outcome = Js.Normal b)
  /\ (fst outcome = Js.Normal true ->
      exists c, calls (snd outcome) = calls w ++ [c])
  /\ (fst outcome = Js.Normal false ->
      snd outcome = w
      \/ exists c, calls (snd outcome) = calls w ++ [c]
                   /\ faulty w c <> None).
Proof.
  cbv zeta. rewrite processVoiceCommand_resolve.
  destruct (resolve h customCommands text) as [commandId |].
  2:{ cbn. split; [now exists false |]. split; [discriminate | now left]. }
  rewrite executeCommand_run.
  destruct (falsy (uri videoControls)).
  { cbn. split; [now exists false |]. split; [discriminate | now left]. }
  destruct (negb (player videoControls)).
  { cbn. split; [now exists false |]. split; [discriminate | now left]. }
  destruct (switch commandId (arms videoControls)) as [arm |].
  2:{ cbn. split; [now exists false |]. split; [discriminate | now left]. }
  cbv zeta. destruct (faulty w (call_of arm)) as [[|] |] eqn:F;
    cbn [fst snd calls].
  - split; [now exists false |]. split; [discriminate |].
    intros _. right. exists (call_of arm). split; [reflexivity | congruence].
  - split; [eexists; reflexivity |]. split.
    + intros _. now exists (call_of arm).
    + intros _. right. exists (call_of arm). split; [reflexivity | congruence].
  - split; [now exists true |]. split; [| discriminate].
    intros _. now exists (call_of arm).
Qed.

(** X8.  Without a matching override, whatever the phrase table selects
    is a command the dispatcher knows: with media loaded and a working
    player, [processVoiceCommand] then returns [true] after exactly one
    call.  The [default] arm is only reached through overrides. *)
Theorem builtin_selection_is_dispatched (h : Hook)
  (customCommands : JsObject.t string) (text commandId : string)
  (videoControls : VideoControls) (w : PlayerWorld) :
  (forall entry, In entry (JsObject.entries customCommands) ->
                 heard (normalize text) (snd entry) = false) ->
  resolve h customCommands text = Some commandId ->
  falsy (uri videoControls) = false ->
  player videoControls = true ->
  (forall c, faulty w c = None) ->
  let outcome := processVoiceCommand h customCommands text videoControls w in
  enumerated commandId = true
  /\ fst outcome = Js.Normal true
  /\ exists c, calls (snd outcome) = calls w ++ [c].
Proof.
  intros Hn R U P F. cbv zeta.
  assert (enumerated commandId = true) as En.
  { unfold resolve in R. destruct (string_falsy text); [discriminate |].
    destruct (customCommand customCommands (normalize text)) as [[a tr] |] eqn:Hc.
    { unfold customCommand in Hc. apply find_some in Hc.
      destruct Hc as [Hin Hh]. rewrite (Hn _ Hin) in Hh. discriminate. }
    destruct (builtinCommand (normalize text)) as [[a ts] |] eqn:Hb;
      [| discriminate].
    injection R as <-. unfold builtinCommand in Hb. apply find_some in Hb.
    now apply declared_actions_enumerated with (triggers := ts). }
  split; [exact En |].
  rewrite processVoiceCommand_resolve, R, executeCommand_run, U, P.
  cbn [negb].
  destruct (switch commandId (arms videoControls)) as [arm |] eqn:Sw.
  - cbv zeta. rewrite F. cbn. split; [reflexivity | now exists (call_of arm)].
  - apply switch_enumerated in Sw. congruence.
Qed.

(** X9.  Two English phrases of the table never select their own action:
    ["unmute"] contains ["mute"] and ["exit fullscreen"] contains
    ["fullscreen"], and ['mute'] and ['fullscreen'] are declared first.  So
    (no override matching) a transcript that contains ["unmute"] selects an
    action declared no later than ['mute'], hence never ['unmute'], and one
    that contains ["exit fullscreen"] never selects ['exitFullscreen']. *)
Theorem shadowed_english_phrases (h : Hook) (text : string) :
  (forall a ts p, In (a, ts) (JsObject.entries commands) -> In p ts ->
                  toLowerCase p = p) ->
  (includes (normalize text) "unmute" = true ->
   exists commandId,
     resolve h [] text = Some commandId
     /\ In commandId (map fst (firstn 13 commands))
     /\ commandId <> "unmute"%string)
  /\ (includes (normalize text) "exit fullscreen" = true ->
      exists commandId,
        resolve h [] text = Some commandId
        /\ In commandId (map fst (firstn 20 commands))
        /\ commandId <> "exitFullscreen"%string).
Proof.
  intros Hlow.
  assert (forall (long short : string)
                 (before after : list (string * list string))
                 (entry : string * list string),
             (exists pre post, long = (pre ++ short ++ post)%string) ->
             commands = before ++ entry :: after ->
             In short (snd entry) ->
             string_falsy short = false ->
             includes (normalize text) long = true ->
             exists commandId,
               resolve h [] text = Some commandId
               /\ In commandId (map fst (before ++ [entry]))) as Shadow.
  { intros long short before after entry [pre [post ->]] Split Hin Hne Hinc.
    assert (includes (normalize text) short = true) as Hs.
    { apply includes_spec in Hinc. destruct Hinc as [b [a E]].
      apply includes_spec. exists (b ++ pre)%string, (post ++ a)%string.
      rewrite E. clear. induction b as [| c b IH]; simpl.
      - induction pre as [| c pre IH]; simpl.
        + induction short as [| c short IH]; simpl; [reflexivity |].
          now rewrite IH.
        + now rewrite IH.
      - now rewrite IH. }
    assert (string_falsy text = false) as Ht.
    { destruct text; [| reflexivity]. rewrite normalize_empty in Hs.
      apply includes_in_empty in Hs. subst short. discriminate. }
    assert (existsb (heard (normalize text)) (snd entry) = true) as Ex.
    { apply existsb_exists. exists short. split; [assumption |].
      unfold heard. destruct entry as [a ts].
      rewrite (Hlow a ts short); auto.
      unfold JsObject.entries. rewrite Split. apply in_or_app. right. now left. }
    destruct (find_reaches
                (fun e => existsb (heard (normalize text)) (snd e))
                before after entry Ex) as [[a ts] [Hf Hy]].
    exists a. split.
    - unfold resolve, customCommand, builtinCommand, JsObject.entries.
      rewrite Ht. cbn [find]. rewrite Split. now rewrite Hf.
    - apply (in_map fst) in Hy. exact Hy. }
  split; intros Hinc.
  - destruct (Shadow "unmute"%string "mute"%string
                (firstn 12 commands) (skipn 13 commands)
                (nth 12 commands (""%string, []))) as [c [R Hin]]; auto.
    + now exists "un"%string, ""%string.
    + cbn. tauto.
    + exists c. split; [exact R |]. split; [exact Hin |].
      intros ->. revert Hin. vm_compute. intuition discriminate.
  - destruct (Shadow "exit fullscreen"%string "fullscreen"%string
                (firstn 19 commands) (skipn 20 commands)
                (nth 19 commands (""%string, []))) as [c [R Hin]]; auto.
    + now exists "exit "%string, ""%string.
    + cbn. tauto.
    + exists c. split; [exact R |]. split; [exact Hin |].
      intros ->. revert Hin. vm_compute. intuition discriminate.
Qed.

End ResolverMore.

(** ** Saved overrides *)

Section OverrideFacts.
Import Resolver.

Lemma has_keys {V : Type} (key : string) (o : JsObject.t V) :
  JsObject.has key o = true <-> In key (map fst o).
Proof.
  unfold JsObject.has. rewrite existsb_exists, in_map_iff. split.
  - intros [e [Hin E]]. apply String.eqb_eq in E. now exists e.
  - intros [e [E Hin]]. exists e. split; [assumption |]. now apply String.eqb_eq.
Qed.

Lemma replace_keys {V : Type} (key : string) (v : V) (o : JsObject.t V) :
  map fst (JsObject.replace key v o) = map fst o.
Proof.
  induction o as [| [k x] o IH]; simpl; [reflexivity |].
  destruct (String.eqb k key); simpl; [reflexivity | now rewrite IH].
Qed.

Lemma replace_other {V : Type} (key other : string) (v x : V)
  (o : JsObject.t V) :
  other <> key ->
  (In (other, x) (JsObject.replace key v o) <-> In (other, x) o).
Proof.
  intros Ne. induction o as [| [k y] o IH]; simpl; [tauto |].
  destruct (String.eqb k key) eqn:K.
  - apply String.eqb_eq in K. subst k. simpl.
    split; intros [E | Hin]; auto; congruence.
  - simpl. rewrite IH. tauto.
Qed.

Lemma replace_value {V : Type} (key : string) (v x : V) (o : JsObject.t V) :
  NoDup (map fst o) -> In (key, x) (JsObject.replace key v o) -> x = v.
Proof.
  induction o as [| [k y] o IH]; simpl; [tauto |].
  intros Nd. inversion Nd as [| ? ? Hk Nd']; subst.
  destruct (String.eqb k key) eqn:K.
  - apply String.eqb_eq in K. subst k. intros [E | Hin]; [congruence |].
    exfalso. apply Hk. now apply (in_map fst) in Hin.
  - apply String.eqb_neq in K. intros [E | Hin]; [congruence | auto].
Qed.

Lemma insert_index_nodup {V : Type} (n : N) (key : string) (v : V)
  (o : JsObject.t V) :
  ~ In key (map fst o) -> NoDup (map fst o) ->
  NoDup (map fst (JsObject.insert_index n key v o)).
Proof.
  induction o as [| [k x] o IH]; simpl; intros Hk Nd.
  - constructor; [tauto | constructor].
  - inversion Nd as [| ? ? Hko Nd']; subst.
    assert (NoDup (key :: k :: map fst o)) as Fresh
      by (constructor; [simpl; tauto | assumption]).
    destruct (JsObject.array_index k) as [m |]; [| exact Fresh].
    destruct (m <? n)%N; [| exact Fresh].
    simpl. constructor; [| apply IH; tauto].
    rewrite in_map_iff. intros [[k' x'] [E Hin]]. simpl in E. subst k'.
    apply insert_index_in in Hin. destruct Hin as [E | Hin].
    + injection E as -> _. tauto.
    + apply Hko. now apply (in_map fst) in Hin.
Qed.

(** X10.  [saveCustomCommand] keeps one phrase per action: after a save
    the mapping holds exactly the new phrase for the action, every other
    action keeps its phrase, no key is duplicated, and an action that had
    a phrase already keeps its place in the order (its precedence among
    the overrides). *)
Theorem saveCustomCommand_overwrites (commandId trigger : string)
  (customCommands : JsObject.t string) :
  NoDup (map fst (JsObject.entries customCommands)) ->
  let saved := JsObject.entries
                 (saveCustomCommand commandId trigger customCommands) in
  NoDup (map fst saved)
  /\ (forall phrase, In (commandId, phrase) saved <-> phrase = trigger)
  /\ (forall other phrase, other <> commandId ->
        (In (other, phrase) saved
         <-> In (other, phrase) (JsObject.entries customCommands)))
  /\ (JsObject.has commandId customCommands = true ->
      map fst saved = map fst (JsObject.entries customCommands)).
Proof.
  unfold JsObject.entries, saveCustomCommand, JsObject.set. intros Nd.
  cbv zeta. destruct (JsObject.has commandId customCommands) eqn:Hh.
  - split; [now rewrite replace_keys |]. split; [| split].
    + intros phrase. split.
      * now apply replace_value.
      * intros ->. now apply replace_has.
    + intros other phrase Ne. now apply replace_other.
    + intros _. apply replace_keys.
  - assert (~ In commandId (map fst customCommands)) as Hk.
    { intros Hin. apply has_keys in Hin. congruence. }
    split; [| split; [| split; [| discriminate]]].
    + destruct (JsObject.array_index commandId).
      * now apply insert_index_nodup.
      * rewrite map_app. simpl.
        apply NoDup_app; [assumption | constructor; [tauto | constructor] |].
        intros k Hin [<- | []]. tauto.
    + intros phrase.
      assert (In (commandId, phrase)
                 (match JsObject.array_index commandId with
                  | Some n => JsObject.insert_index n commandId trigger
                                customCommands
                  | None => customCommands ++ [(commandId, trigger)]
                  end)
              <-> (commandId, phrase) = (commandId, trigger)
                  \/ In (commandId, phrase) customCommands) as Iff.
      { destruct (JsObject.array_index commandId).
        - apply insert_index_in.
        - rewrite in_app_iff. simpl. intuition congruence. }
      rewrite Iff. split.
      * intros [E | Hin]; [congruence |].
        exfalso. apply Hk. now apply (in_map fst) in Hin.
      * intros ->. now left.
    + intros other phrase Ne.
      destruct (JsObject.array_index commandId).
      * rewrite insert_index_in. intuition congruence.
      * rewrite in_app_iff. simpl. intuition congruence.
Qed.

End OverrideFacts.

(** ** Session controller, continued *)

Section SessionMore.
Context `{StringPrototype}.
Import Js Session Execution.

(** X11.  Whatever happens to the recording, [stopRecording] settles the
    indicators: on every path (recognizer, recorder, upload failing or
    not) it ends with [isRecording] and [isProcessing] false and no
    one-shot recognizer referenced; it can only throw where the haptic
    call of its [catch] fails, never on the web; and when it returns a
    transcript, that transcript is [lastCommand], the error is cleared and
    the recorder is released. *)
Theorem stopRecording_settles (h : Hook) (o : Outside) (w : World) :
  let outcome := stopRecording h o w in
  isRecording (state (snd outcome)) = false
  /\ isProcessing (state (snd outcome)) = false
  /\ recognitionRef (snd outcome) = None
  /\ (is_web h = true \/ hapticsWork o = true ->
      throws (fst outcome) = false)
  /\ (forall text, fst outcome = Normal (Some text) ->
        lastCommand (state (snd outcome)) = Some text
        /\ error (state (snd outcome)) = None
        /\ mediaRecorderRef (snd outcome) = None).
Proof.
  cbv zeta. js_run.
  all: repeat split; intros; try reflexivity; try assumption; try congruence.
  all: destruct (is_web h); cbn in *; intuition congruence.
Qed.

(** X12.  [startRecording] never throws.  When the capture cannot start
    (the recognizer refuses to start on the web, or the microphone is
    refused on the recorder path) nothing is recorded: the refs and
    [isRecording] stay as they were, the only platform call made is the
    microphone request, and the error is set.  Otherwise [isRecording]
    becomes true and the new handle is the one the ref holds. *)
Theorem startRecording_starts_or_reports (h : Hook) (o : Outside) (w : World) :
  let outcome := startRecording h o w in
  let speech := is_web h && SpeechRecognition h in
  let able := if speech then recognizerStarts o else microphoneGranted o in
  throws (fst outcome) = false
  /\ (able = false ->
      state (snd outcome) = with_error (Some (t h "voice.error")) (state w)
      /\ recognitionRef (snd outcome) = recognitionRef w
      /\ mediaRecorderRef (snd outcome) = mediaRecorderRef w
      /\ (forall e, In e (trace (snd outcome)) ->
                    In e (trace w) \/ e = GetUserMedia))
  /\ (able = true ->
      isRecording (state (snd outcome)) = true
      /\ if speech
         then recognitionRef (snd outcome) = Some (fresh w)
              /\ mediaRecorderRef (snd outcome) = mediaRecorderRef w
              /\ In (RecognitionStart (fresh w) false (language h))
                    (trace (snd outcome))
         else mediaRecorderRef (snd outcome) = Some (fresh w)
              /\ recognitionRef (snd outcome) = recognitionRef w
              /\ audioChunksRef (snd outcome) = []
              /\ In (RecorderStart (fresh w)) (trace (snd outcome))).
Proof.
  cbv zeta.
  destruct (is_web h) eqn:Web, (SpeechRecognition h) eqn:SR; cbn [andb];
    js_unfold; rewrite ?Web, ?SR; js_cases.
  all: repeat split; intros; try reflexivity; try assumption; try congruence.
  all: try (repeat (apply in_or_app; first [right; now left | left])).
  all: repeat match goal with
              | Hin : In _ (_ ++ _) |- _ =>
                  apply in_app_or in Hin; destruct Hin as [Hin | Hin]
              end.
  all: try (now left).
  all: try (right; match goal with
                   | Hin : In _ [_] |- _ => destruct Hin as [<- | []]
                   end; reflexivity).
Qed.

(** X13.  [togglePersistentMode] fails fast: on the web, with persistent
    mode off, a refused microphone ends the call with the error set and
    nothing else: no recognizer is created, the refs, the timers and the
    other fields of the state stay as they were. *)
Theorem togglePersistentMode_fails_fast (h : Hook) (o : Outside) (w : World) :
  is_web h = true ->
  isPersistentMode (state w) = false ->
  microphoneGranted o = false ->
  let outcome := togglePersistentMode h o w in
  fst outcome = Normal tt
  /\ state (snd outcome)
     = with_error (Some "Microphone permission is required for voice commands")
         (state w)
  /\ trace (snd outcome) = trace w ++ [GetUserMedia]
  /\ persistentRecognitionRef (snd outcome) = persistentRecognitionRef w
  /\ restartTimeoutRef (snd outcome) = restartTimeoutRef w
  /\ timers (snd outcome) = timers w.
Proof.
  intros Web Off Denied. cbv zeta.
  unfold togglePersistentMode, bind, get. rewrite Off, Web.
  unfold try_catch, getUserMedia, bind, effect, modify, throw, setState, ret.
  rewrite Denied. cbn. repeat split; reflexivity.
Qed.

(** A start that succeeds on the web: the state is not touched, the
    new recognizer is referenced, the one referenced before is stopped. *)
Lemma startPersistentListening_started (h : Hook) (o : Outside) (w : World) :
  is_web h = true -> SpeechRecognition h = true -> recognizerStarts o = true ->
  let started := exec (startPersistentListening h o) w in
  state started = state w
  /\ persistentRecognitionRef started = Some (fresh w)
  /\ fresh started = S (fresh w)
  /\ In (RecognitionStart (fresh w) true (recognitionLang h)) (trace started)
  /\ (forall existing, persistentRecognitionRef w = Some existing ->
                       In (RecognitionStop existing) (trace started))
  /\ (forall e, In e (trace w) -> In e (trace started)).
Proof.
  intros Web SR Starts. cbv zeta.
  unfold exec, startPersistentListening, newRecognition.
  rewrite Web, SR, Starts. js_run.
  all: repeat split; intros; try reflexivity; try congruence.
  all: try match goal with
           | E : Some _ = Some _ |- _ => injection E as <-
           end.
  all: repeat (apply in_or_app; first [right; now left | left]); assumption.
Qed.

Lemma togglePersistentMode_on (h : Hook) (o : Outside) (w : World) :
  is_web h = true -> isPersistentMode (state w) = false ->
  microphoneGranted o = true ->
  exec (togglePersistentMode h o) w
  = exec (startPersistentListening h o) (exec (effect GetUserMedia) w).
Proof.
  intros Web Off Granted. unfold exec, togglePersistentMode, bind, get.
  rewrite Off, Web. unfold try_catch, getUserMedia, bind, ret.
  rewrite Granted. reflexivity.
Qed.

(** X14.  [isPersistentMode] is set by the recognizer's [onstart], not
    by the toggle: on the web, a second [togglePersistentMode] that comes
    before [onstart] does not stop the session, it replaces it (the first
    recognizer is stopped, a second one is started and referenced). *)
Theorem toggle_before_onstart_restarts (h : Hook) (o : Outside) (w : World) :
  is_web h = true ->
  SpeechRecognition h = true ->
  isPersistentMode (state w) = false ->
  microphoneGranted o = true ->
  recognizerStarts o = true ->
  let once := exec (togglePersistentMode h o) w in
  let twice := exec (togglePersistentMode h o) once in
  (isPersistentMode (state once) = false
   /\ persistentRecognitionRef once = Some (fresh w))
  /\ (isPersistentMode (state twice) = false
      /\ persistentRecognitionRef twice = Some (S (fresh w))
      /\ In (RecognitionStop (fresh w)) (trace twice)
      /\ In (RecognitionStart (S (fresh w)) true (recognitionLang h))
            (trace twice)).
Proof.
  intros Web SR Off Granted Starts. cbv zeta.
  rewrite (togglePersistentMode_on h o w Web Off Granted).
  set (asked := exec (effect GetUserMedia) w).
  destruct (startPersistentListening_started h o asked Web SR Starts)
    as [S1 [R1 [F1 _]]].
  set (once := exec (startPersistentListening h o) asked) in *.
  assert (isPersistentMode (state once) = false) as Off1
    by (rewrite S1; exact Off).
  split; [split; [exact Off1 | exact R1] |].
  rewrite (togglePersistentMode_on h o once Web Off1 Granted).
  set (asked2 := exec (effect GetUserMedia) once).
  destruct (startPersistentListening_started h o asked2 Web SR Starts)
    as [S2 [R2 [_ [T2 [Stop2 _]]]]].
  change (fresh asked2) with (fresh once) in R2, T2. rewrite F1 in R2, T2.
  change (fresh asked) with (fresh w) in R2, T2.
  split; [rewrite S2; exact Off1 |]. split; [exact R2 |].
  split; [| exact T2].
  apply Stop2. exact R1.
Qed.

(** X15.  [startPersistentListening] never throws; where the platform has
    no recognizer (the web without [SpeechRecognition]) it only sets the
    error and clears [isPersistentMode]; and when the recognizer cannot be
    started the failure is reported: the error is set, [isPersistentMode]
    and [isListening] are false, and neither a recognizer nor a restart
    timer is left referenced. *)
Theorem startPersistentListening_reports_failure
  (h : Hook) (o : Outside) (w : World) :
  let outcome := startPersistentListening h o w in
  throws (fst outcome) = false
  /\ (is_web h = true -> SpeechRecognition h = false ->
      snd outcome
      = exec (setState (fun prev =>
                with_isPersistentMode false
                  (with_error (Some "Speech Recognition not supported in this browser. Please use Chrome, Edge, or Safari.")
                     prev))) w)
  /\ (is_web h = true -> SpeechRecognition h = true ->
      recognizerStarts o = false ->
      state (snd outcome)
      = with_isListening false
          (with_isPersistentMode false
             (with_error (Some "Failed to start persistent listening mode")
                (state w)))
      /\ persistentRecognitionRef (snd outcome) = None
      /\ restartTimeoutRef (snd outcome) = None
      /\ filter starts_recognition (trace (snd outcome))
         = filter starts_recognition (trace w)).
Proof.
  cbv zeta. split; [| split].
  - js_run; reflexivity.
  - intros Web SR. unfold startPersistentListening. rewrite Web, SR.
    reflexivity.
  - intros Web SR Fails. unfold startPersistentListening, newRecognition.
    rewrite Web, SR, Fails. js_run.
    all: repeat split; try reflexivity; try assumption.
    all: rewrite ?filter_app; cbn; now rewrite ?app_nil_r.
Qed.

End SessionMore.

(** ** Invariants of the executions *)

Section ExecutionInvariants.
Context `{StringPrototype}.
Import Js Session Execution.





(** Membership in a trace that a callback has extended. *)
Ltac in_trace := rewrite ?in_app_iff; cbn; intuition (auto; congruence).

Lemma step_one_persistent (h : Hook) (ev : Event) (w : World) :
  (forall id lang, In (RecognitionStart id true lang) (trace w) ->
     persistentRecognitionRef w = Some id \/ In (RecognitionStop id) (trace w)) ->
  forall id lang, In (RecognitionStart id true lang) (trace (step h ev w)) ->
    persistentRecognitionRef (step h ev w) = Some id
    \/ In (RecognitionStop id) (trace (step h ev w)).
Proof.
  intros Inv.
  destruct ev; unfold step, handle; js_run; intros rid rlang Hin.
  all: repeat (apply in_app_or in Hin; destruct Hin as [Hin | Hin]).
  all: try (destruct Hin as [Hin | []]; try discriminate Hin;
            injection Hin as <- <-; left; reflexivity).
  all: try (destruct Hin as [Hin | []]; discriminate Hin).
  all: destruct (Inv rid rlang Hin) as [Ref | Stopped];
    [| right; in_trace].
  all: try (left; exact Ref).
  all: try (left; congruence).
  all: right; try (injection Ref as <-);
    repeat match goal with
           | E : persistentRecognitionRef _ = Some _ |- _ =>
               rewrite Ref in E; injection E as <-
           end;
    in_trace.
Qed.

(** X17.  In every execution, each continuous recognizer that was
    started has been stopped or is the one [persistentRecognitionRef]
    holds: two persistent sessions are never live together. *)
Theorem one_live_persistent_recognizer (h : Hook) (w : World) :
  reachable h w ->
  forall id lang,
    In (RecognitionStart id true lang) (trace w) ->
    persistentRecognitionRef w = Some id \/ In (RecognitionStop id) (trace w).
Proof.
  induction 1 as [| w ev R IH]; [intros id lang [] |].
  now apply step_one_persistent.
Qed.



Lemma step_normalized (h : Hook) (ev : Event) (w : World) :
  (forall command, lastCommand (state w) = Some command ->
     exists transcript, command = trim (toLowerCase transcript)) ->
  forall command, lastCommand (state (step h ev w)) = Some command ->
    exists transcript, command = trim (toLowerCase transcript).
Proof.
  intros Inv.
  destruct ev; unfold step, handle; js_run; intros command Last.
  all: try discriminate Last.
  all: try (exact (Inv command Last)).
  all: try (injection Last as <-; eexists; reflexivity).
  all: try (destruct text as [s |]; [| discriminate Last];
            injection Last as <-; eexists; reflexivity).
Qed.

(** X19.  Every command the hook exposes is normalized: in every
    execution [lastCommand], when set, is a transcript lower-cased and
    trimmed, whichever of the three sources it came from (the persistent
    recognizer, the one-shot recognizer, the transcription service). *)
Theorem lastCommand_is_normalized (h : Hook) (w : World) :
  reachable h w ->
  forall command,
    lastCommand (state w) = Some command ->
    exists transcript, command = trim (toLowerCase transcript).
Proof.
  induction 1 as [| w ev R IH]; [discriminate |].
  now apply step_normalized.
Qed.


End ExecutionInvariants.

(** ** What the button reports *)

Section FeedbackFacts.
Context `{StringPrototype}.
Import Dispatcher Resolver CommandFeedback.

(** X21.  With no video loaded, or no player, every command is reported
    as not recognized, whether or not one of its phrases was heard, and
    the player is not called: the refusal of the dispatcher and a
    transcript that matches nothing look the same to the user. *)
Theorem feedback_without_media (h : Hook) (customCommands : JsObject.t string)
  (command : string) (videoControls : VideoControls) (w : PlayerWorld) :
  string_falsy command = false ->
  falsy (uri videoControls) = true \/ player videoControls = false ->
  processCommand h customCommands (Some command) videoControls w
  = (Js.Normal (Some {| success := false; message := notRecognized command |}),
     w).
Proof.
  intros Hc Hm. unfold processCommand. rewrite Hc. unfold Js.bind.
  rewrite processVoiceCommand_resolve.
  destruct (resolve h customCommands command) as [commandId |];
    [| reflexivity].
  rewrite executeCommand_run.
  destruct (falsy (uri videoControls)); [reflexivity |].
  destruct Hm as [Hm | Hm]; [discriminate | now rewrite Hm].
Qed.

End FeedbackFacts.

(** ** Runs of the further properties *)

Lemma resolve_is_heard_witness :
  Resolver.resolve (H := AsciiText.ascii_text) Sample.english_web
    Scenario.one_override "Go on" = Some "play"
  /\ string_falsy "Go on" = false.
Proof.
  split; [reflexivity |].
  exact (proj1 (resolve_is_heard (H := AsciiText.ascii_text)
                  Sample.english_web Scenario.one_override "Go on" "play"
                  eq_refl)).
Defined.

Lemma builtin_selection_is_dispatched_witness :
  Resolver.resolve (H := AsciiText.ascii_text) Sample.english_web []
    "play the video" = Some "play"
  /\ falsy (uri Sample.half_volume) = false
  /\ player Sample.half_volume = true
  /\ Dispatcher.enumerated "play" = true
  /\ fst (Resolver.processVoiceCommand (H := AsciiText.ascii_text)
            Sample.english_web [] "play the video" Sample.half_volume
            (Sample.playing Sample.half_volume)) = Js.Normal true.
Proof.
  split; [reflexivity |]. split; [reflexivity |]. split; [reflexivity |].
  pose proof (builtin_selection_is_dispatched (H := AsciiText.ascii_text)
                Sample.english_web [] "play the video" "play"
                Sample.half_volume (Sample.playing Sample.half_volume)
                (fun entry (Hin : In entry []) => match Hin with end)
                eq_refl eq_refl eq_refl (fun _ => eq_refl)) as S.
  split; [exact (proj1 S) | exact (proj1 (proj2 S))].
Defined.

Lemma shadowed_english_phrases_witness :
  includes (Resolver.normalize (H := AsciiText.ascii_text) "Please unmute")
    "unmute" = true
  /\ exists commandId,
       Resolver.resolve (H := AsciiText.ascii_text) Sample.english_web []
         "Please unmute" = Some commandId
       /\ In commandId (map fst (firstn 13 Resolver.commands))
       /\ commandId <> "unmute"%string.
Proof.
  split; [reflexivity |].
  exact (proj1 (shadowed_english_phrases (H := AsciiText.ascii_text)
                  Sample.english_web "Please unmute"
                  declared_phrases_lowercase) eq_refl).
Defined.

Lemma saveCustomCommand_overwrites_witness :
  NoDup (map fst (JsObject.entries Scenario.one_override))
  /\ JsObject.entries
       (Resolver.saveCustomCommand "play" "start now" Scenario.one_override)
     = [("play", "start now")]
  /\ forall phrase,
       In ("play"%string, phrase)
          (JsObject.entries
             (Resolver.saveCustomCommand "play" "start now"
                Scenario.one_override))
       <-> phrase = "start now"%string.
Proof.
  assert (NoDup (map fst (JsObject.entries Scenario.one_override))) as Nd
    by (repeat constructor; simpl; tauto).
  split; [exact Nd |]. split; [reflexivity |].
  exact (proj1 (proj2 (saveCustomCommand_overwrites "play" "start now"
                         Scenario.one_override Nd))).
Defined.

Lemma togglePersistentMode_fails_fast_witness :
  is_web Sample.english_web = true
  /\ isPersistentMode (state Session.initialWorld) = false
  /\ microphoneGranted Sample.denied = false
  /\ trace (snd (Session.togglePersistentMode Sample.english_web Sample.denied
                   Session.initialWorld)) = [GetUserMedia].
Proof.
  split; [reflexivity |]. split; [reflexivity |]. split; [reflexivity |].
  exact (proj1 (proj2 (proj2
    (togglePersistentMode_fails_fast Sample.english_web Sample.denied
       Session.initialWorld eq_refl eq_refl eq_refl)))).
Defined.

Lemma toggle_before_onstart_restarts_witness :
  isPersistentMode (state Session.initialWorld) = false
  /\ persistentRecognitionRef
       (Js.exec (Session.togglePersistentMode Sample.english_web Sample.fine)
          (Js.exec (Session.togglePersistentMode Sample.english_web Sample.fine)
             Session.initialWorld)) = Some 2.
Proof.
  split; [reflexivity |].
  exact (proj1 (proj2 (proj2
    (toggle_before_onstart_restarts Sample.english_web Sample.fine
       Session.initialWorld eq_refl eq_refl eq_refl eq_refl eq_refl)))).
Defined.


Lemma one_live_persistent_recognizer_witness :
  In (RecognitionStart 1 true "en") (trace Sample.listening)
  /\ (persistentRecognitionRef Sample.listening = Some 1
      \/ In (RecognitionStop 1) (trace Sample.listening)).
Proof.
  assert (In (RecognitionStart 1 true "en") (trace Sample.listening)) as Hin
    by (right; now left).
  split; [exact Hin |].
  assert (Execution.reachable (H := AsciiText.ascii_text) Sample.english_web
            Sample.listening) as R
    by (repeat apply Execution.reachable_step;
        apply Execution.reachable_initial).
  exact (one_live_persistent_recognizer (H := AsciiText.ascii_text)
           Sample.english_web Sample.listening R 1 "en"%string Hin).
Defined.


Lemma lastCommand_is_normalized_witness :
  lastCommand (state Scenario.heard_play) = Some "play"
  /\ exists transcript,
       "play"%string
       = trim (StringPrototype := AsciiText.ascii_text)
           (toLowerCase (StringPrototype := AsciiText.ascii_text) transcript).
Proof.
  split; [reflexivity |].
  assert (Execution.reachable (H := AsciiText.ascii_text) Sample.english_web
            Scenario.heard_play) as R
    by (repeat apply Execution.reachable_step;
        apply Execution.reachable_initial).
  exact (lastCommand_is_normalized (H := AsciiText.ascii_text)
           Sample.english_web Scenario.heard_play R "play"%string eq_refl).
Defined.


Lemma feedback_without_media_witness :
  falsy (uri Sample.nothing_loaded) = true
  /\ CommandFeedback.processCommand (H := AsciiText.ascii_text)
       Sample.english_web [] (Some "play") Sample.nothing_loaded
       (Sample.playing Sample.nothing_loaded)
     = (Js.Normal
          (Some {| CommandFeedback.success := false;
                   CommandFeedback.message :=
                     CommandFeedback.notRecognized "play" |}),
        Sample.playing Sample.nothing_loaded).
Proof.
  split; [reflexivity |].
  exact (feedback_without_media (H := AsciiText.ascii_text)
           Sample.english_web [] "play" Sample.nothing_loaded
           (Sample.playing Sample.nothing_loaded) eq_refl
           (or_introl eq_refl)).
Defined.
